(** * Voro++ [container.hh]: walls, containers and the radical variant

    A shallow embedding of the inline code of [src/container.hh]:
    [wall_list], [container_base], [container] and [container_poly].

    - C++ [int] is modelled by [Z].  Signed overflow is undefined in C++,
      so the embedding describes the executions in which it does not occur.
    - C++ [double] is modelled through the interface [DoubleOps]: the code
      is written once over its operations and is run over two carriers,
      the IEEE binary64 numbers of the kernel ([binary64]) and exact
      rationals ([exactQ]).
    - An array reached through a pointer ([p[ijk]], [co], [mem], [id]) is a
      list; a read outside it is undefined behaviour in C++ and is [None]
      here. *)

From Stdlib Require Import ZArith QArith Qround Qreduction Lqa Lia Bool Floats.
From stdpp Require Import base option list.

Local Open Scope Z_scope.

(** ** Arithmetic on [double] *)

Class DoubleOps (D : Type) := {
  d_zero : D;                 (* the literal 0 *)
  d_one : D;                  (* the literal 1 *)
  d_half : D;                 (* the literal 0.5 *)
  d_add : D -> D -> D;
  d_sub : D -> D -> D;
  d_mul : D -> D -> D;
  d_div : D -> D -> D;
  d_opp : D -> D;
  d_ltb : D -> D -> bool;     (* x<y *)
  d_leb : D -> D -> bool;     (* x<=y *)
  d_floor : D -> Z;           (* int(floor(x)) *)
  d_of_int : Z -> D;          (* the conversion of an int to double *)
}.

Declare Scope double_scope.
Delimit Scope double_scope with D.
Infix "+" := d_add : double_scope.
Infix "-" := d_sub : double_scope.
Infix "*" := d_mul : double_scope.
Infix "/" := d_div : double_scope.
Notation "- x" := (d_opp x) : double_scope.
Infix "<?" := d_ltb : double_scope.
Infix "<=?" := d_leb : double_scope.

(** Exact arithmetic: the rationals. *)
#[export] Instance exactQ : DoubleOps Q := {
  d_zero := 0%Q;
  d_one := 1%Q;
  d_half := (1 # 2)%Q;
  d_add := Qplus;
  d_sub := Qminus;
  d_mul := Qmult;
  d_div := Qdiv;
  d_opp := Qopp;
  d_ltb := fun x y => negb (Qle_bool y x);
  d_leb := Qle_bool;
  d_floor := Qfloor;
  d_of_int := inject_Z;
}.

(** The largest integer below a binary64 number, read off its mantissa and
    exponent; infinities and NaN have none and give 0. *)
Definition float_floor (f : float) : Z :=
  match Prim2SF f with
  | S754_finite s m e => Z.shiftl (if s then Z.neg m else Z.pos m) e
  | _ => 0
  end.

(** IEEE binary64, round to nearest even: the kernel's primitive floats. *)
#[export] Instance binary64 : DoubleOps float := {
  d_zero := 0%float;
  d_one := 1%float;
  d_half := 0.5%float;
  d_add := PrimFloat.add;
  d_sub := PrimFloat.sub;
  d_mul := PrimFloat.mul;
  d_div := PrimFloat.div;
  d_opp := PrimFloat.opp;
  d_ltb := PrimFloat.ltb;
  d_leb := PrimFloat.leb;
  d_floor := float_floor;
  d_of_int := fun n => SF2Prim (binary_normalize prec emax n 0 false);
}.

(** Reading [a[i]] for an [int] index. *)
Definition at_index {A : Type} (a : list A) (i : Z) : option A :=
  if decide (0 <= i) then a !! Z.to_nat i else None.

(** ** Walls *)

Section Walls.
Context {D : Type} {C : Type}.

(** [class wall]: the two pure virtual capabilities.  [cut_cell] takes the
    cell by reference and returns whether it survived; [C] is the cell
    class of the overload in use ([voronoicell] or
    [voronoicell_neighbor]). *)
Record wall := Wall {
  point_inside : D -> D -> D -> bool;
  cut_cell : C -> D -> D -> D -> C * bool;
}.

(** [wall_list]: the walls between [walls] and [wep], in order. *)
Definition wall_list := list wall.

(** [*(wep++)=w]: the wall goes behind those already there.  The test
    [wep==wel] before it only enlarges the array ([increase_wall_memory])
    and does not touch the sequence. *)
Definition add_wall (w : wall) (wl : wall_list) : wall_list := wl ++ [w].

Fixpoint point_inside_walls (walls : wall_list) (x y z : D) : bool :=
  match walls with
  | [] => true
  | wp :: rest =>
      if negb (point_inside wp x y z) then false
      else point_inside_walls rest x y z
  end.

Fixpoint apply_walls (walls : wall_list) (c : C) (x y z : D) : C * bool :=
  match walls with
  | [] => (c, true)
  | wp :: rest =>
      let '(c', ok) := cut_cell wp c x y z in
      if negb ok then (c', false) else apply_walls rest c' x y z
  end.
End Walls.

Arguments wall : clear implicits.
Arguments wall_list : clear implicits.
Arguments Wall {D C} _ _.

(** A cell class that also records which walls cut it: wall number [i]
    behaves as [w] on the cell and appends [i] to the record. *)
Definition traced {D C : Type} (i : nat) (w : wall D C) : wall D (C * list nat) :=
  Wall (point_inside w)
       (fun cl x y z =>
          let '(c', ok) := cut_cell w (fst cl) x y z in
          ((c', snd cl ++ [i]), ok)).

(** The numbers of the walls whose [cut_cell] the call
    [apply_walls(c,x,y,z)] invokes, in the order of invocation. *)
Definition invoked {D C : Type} (walls : wall_list D C) (c : C) (x y z : D) : list nat :=
  snd (fst (apply_walls (imap traced walls) (c, []) x y z)).

(** Every cut of [walls], applied in order from [c], leaves a cell. *)
Fixpoint all_survive {D C : Type} (walls : wall_list D C) (c : C) (x y z : D) : Prop :=
  match walls with
  | [] => True
  | w :: rest =>
      snd (cut_cell w c x y z) = true /\
      all_survive rest (fst (cut_cell w c x y z)) x y z
  end.

(** The cell after every wall of [walls] has cut it in order, no cut being
    skipped. *)
Definition cut_by_all {D C : Type} (walls : wall_list D C) (c : C) (x y z : D) : C :=
  fold_left (fun c' w => fst (cut_cell w c' x y z)) walls c.

(** ** The container *)

(** What the templates ask of a cell class ([cell.hh]): [c.init] resets the
    cell to the box with the given bounds. *)
Class VoronoiCell (D C : Type) := {
  init : C -> D -> D -> D -> D -> D -> D -> C;
}.

(** The fields of a loop class ([v_loops.hh]) that the container reads. *)
Record v_loop := VLoop {
  vl_ijk : Z;
  vl_q : Z;
  vl_i : Z;
  vl_j : Z;
  vl_k : Z;
}.

Section Container.
Context {D : Type} `{DoubleOps D} {C : Type} `{VoronoiCell D C}.

(** [class container_base], with the members it inherits from
    [voropp_base] ([nx], [ny], [nz], [boxx], [boxy], [boxz]) and from
    [wall_list] ([walls]). *)
Record container_base := ContainerBase {
  ax : D; bx : D; ay : D; by_ : D; az : D; bz : D;
  xperiodic : bool; yperiodic : bool; zperiodic : bool;
  id : list (list Z);
  p : list (list D);
  co : list Z;
  mem : list Z;
  ps : Z;
  nx : Z; ny : Z; nz : Z;
  boxx : D; boxy : D; boxz : D;
  walls : wall_list D C;
  cux : D; cuy : D; cuz : D;
  cui : Z; cuj : Z; cuk : Z; cuijk : Z;
}.

(** [cux=..;cuy=..;cuz=..;cui=..;cuj=..;cuk=..] *)
Definition set_current (cb : container_base) (x y z : D) (i j k : Z) : container_base :=
  ContainerBase (ax cb) (bx cb) (ay cb) (by_ cb) (az cb) (bz cb)
    (xperiodic cb) (yperiodic cb) (zperiodic cb)
    (id cb) (p cb) (co cb) (mem cb) (ps cb)
    (nx cb) (ny cb) (nz cb) (boxx cb) (boxy cb) (boxz cb) (walls cb)
    x y z i j k (cuijk cb).

(** [cuijk=..] *)
Definition set_cuijk (cb : container_base) (v : Z) : container_base :=
  ContainerBase (ax cb) (bx cb) (ay cb) (by_ cb) (az cb) (bz cb)
    (xperiodic cb) (yperiodic cb) (zperiodic cb)
    (id cb) (p cb) (co cb) (mem cb) (ps cb)
    (nx cb) (ny cb) (nz cb) (boxx cb) (boxy cb) (boxz cb) (walls cb)
    (cux cb) (cuy cb) (cuz cb) (cui cb) (cuj cb) (cuk cb) v.

(** The particle arrays replaced, everything else kept. *)
Definition set_store (cb : container_base)
    (id' : list (list Z)) (p' : list (list D)) (co' mem' : list Z) : container_base :=
  ContainerBase (ax cb) (bx cb) (ay cb) (by_ cb) (az cb) (bz cb)
    (xperiodic cb) (yperiodic cb) (zperiodic cb)
    id' p' co' mem' (ps cb)
    (nx cb) (ny cb) (nz cb) (boxx cb) (boxy cb) (boxz cb) (walls cb)
    (cux cb) (cuy cb) (cuz cb) (cui cb) (cuj cb) (cuk cb) (cuijk cb).

(** What [initialize_voronoicell] leaves behind: the container with its
    scratch fields, the cell, the three reference arguments and the
    returned flag. *)
Record initialized := Initialized {
  in_con : container_base;
  in_cell : C;
  in_sti : Z;
  in_stj : Z;
  in_stk : Z;
  in_ok : bool;
}.

Definition initialize_voronoicell (cb : container_base) (c : C) (vl : v_loop)
    : option initialized :=
  pp ← at_index (p cb) (vl_ijk vl);
  x ← at_index pp (ps cb * vl_q vl);
  y ← at_index pp (ps cb * vl_q vl + 1);
  z ← at_index pp (ps cb * vl_q vl + 2);
  let cb := set_current cb x y z (vl_i vl) (vl_j vl) (vl_k vl) in
  let '(x1, x2, sti) :=
    if xperiodic cb then let x2 := (d_half * (bx cb - ax cb))%D in ((- x2)%D, x2, nx cb)
    else ((ax cb - cux cb)%D, (bx cb - cux cb)%D, cui cb) in
  let '(y1, y2, stj) :=
    if yperiodic cb then let y2 := (d_half * (by_ cb - ay cb))%D in ((- y2)%D, y2, ny cb)
    else ((ay cb - cuy cb)%D, (by_ cb - cuy cb)%D, cuj cb) in
  let '(z1, z2, stk) :=
    if zperiodic cb then let z2 := (d_half * (bz cb - az cb))%D in ((- z2)%D, z2, nz cb)
    else ((az cb - cuz cb)%D, (bz cb - cuz cb)%D, cuk cb) in
  let c := init c x1 x2 y1 y2 z1 z2 in
  let '(c, ok) := apply_walls (walls cb) c (cux cb) (cuy cb) (cuz cb) in
  if negb ok then Some (Initialized cb c sti stj stk false)
  else
    let cb := set_cuijk cb (vl_ijk vl - sti - nx cb * (stj + ny cb * stk)) in
    Some (Initialized cb c sti stj stk true).

Definition frac_pos (cb : container_base) : D * D * D :=
  ((cux cb - ax cb - boxx cb * d_of_int (cui cb))%D,
   (cuy cb - ay cb - boxy cb * d_of_int (cuj cb))%D,
   (cuz cb - az cb - boxz cb * d_of_int (cuk cb))%D).

(** [qx], [qy], [qz] are references: their values on entry are arguments
    here, and their values on exit are returned beside the index. *)
Definition region_index (cb : container_base) (ei ej ek : Z) (qx qy qz : D)
    : Z * D * D * D :=
  let '(ei, qx) :=
    if xperiodic cb then
      if cui cb + ei <? nx cb then (ei + nx cb, (- (bx cb - ax cb))%D)
      else if cui cb + ei >=? Z.shiftl (nx cb) 1 then (ei - nx cb, (bx cb - ax cb)%D)
      else (ei, d_zero)
    else (ei, qx) in
  let '(ej, qy) :=
    if yperiodic cb then
      if cuj cb + ej <? ny cb then (ej + ny cb, (- (by_ cb - ay cb))%D)
      else if cuj cb + ej >=? Z.shiftl (ny cb) 1 then (ej - ny cb, (by_ cb - ay cb)%D)
      else (ej, d_zero)
    else (ej, qy) in
  let '(ek, qz) :=
    if zperiodic cb then
      if cuk cb + ek <? nz cb then (ek + nz cb, (- (bz cb - az cb))%D)
      else if cuk cb + ek >=? Z.shiftl (nz cb) 1 then (ek - nz cb, (bz cb - az cb)%D)
      else (ek, d_zero)
    else (ek, qz) in
  (cuijk cb + ei + nx cb * (ej + ny cb * ek), qx, qy, qz).
End Container.

Arguments container_base : clear implicits.
Arguments initialized : clear implicits.

(** ** Members defined in [container.cc]

    The header declares the constructor, [point_inside], [put_remap],
    [put_locate_block], [add_particle_memory], [put] and [clear]; their
    bodies are in [container.cc], which is not part of this development.
    They are modelled from the specification's description of the
    particle grid. *)

(** How an insertion ends: normally, or at one of the fatal errors. *)
Inductive outcome (A : Type) : Type :=
  | Done (a : A)
  | DomainError     (* a non-periodic coordinate out of range *)
  | MemoryError     (* a box would grow past max_particle_memory *)
  | NoSuchBox.      (* the index computed for the point is not a box of the grid *)

Arguments Done {A} a.
Arguments DomainError {A}.
Arguments MemoryError {A}.
Arguments NoSuchBox {A}.

#[export] Instance outcome_ret : MRet outcome := fun A a => Done a.

#[export] Instance outcome_bind : MBind outcome := fun A B k m =>
  match m with
  | Done a => k a
  | DomainError => DomainError
  | MemoryError => MemoryError
  | NoSuchBox => NoSuchBox
  end.

(** Case analysis on the first action of a sequence that ended normally. *)
Ltac bind_inv H :=
  match type of H with
  | mbind _ ?m = Done _ =>
      let E := fresh "E" in
      destruct m eqn:E; simpl in H; try discriminate H
  end.

(** A box looked up by its index. *)
Definition box {A : Type} (a : list A) (ijk : Z) : outcome A :=
  from_option Done NoSuchBox (at_index a ijk).

(** [a[o]=v0; a[o+1]=v1; ...] *)
Fixpoint write_from {A : Type} (a : list A) (o : nat) (vs : list A) : list A :=
  match vs with
  | [] => a
  | v :: vs' => write_from (<[o := v]> a) (S o) vs'
  end.

Module container_base.
Section Members.
Context {D : Type} `{DoubleOps D} {C : Type} `{VoronoiCell D C}.

(** [max_particle_memory], of [config.hh]. *)
Variable max_particle_memory : Z.

(** Modelled from the spec: the constructor of [container_base], whose
    body is missing.  "A container is created empty"; the box is
    "partitioned into nx·ny·nz equal computational boxes", each with the
    "initial per-box capacity" [init_mem]. *)
Definition new (ax_ bx_ ay_ by__ az_ bz_ : D) (nx_ ny_ nz_ : Z)
    (xperiodic_ yperiodic_ zperiodic_ : bool) (init_mem ps_ : Z) : container_base D C :=
  let nxyz := Z.to_nat (nx_ * ny_ * nz_) in
  ContainerBase ax_ bx_ ay_ by__ az_ bz_ xperiodic_ yperiodic_ zperiodic_
    (replicate nxyz (replicate (Z.to_nat init_mem) 0))
    (replicate nxyz (replicate (Z.to_nat (ps_ * init_mem)) d_zero))
    (replicate nxyz 0) (replicate nxyz init_mem) ps_
    nx_ ny_ nz_
    ((bx_ - ax_) / d_of_int nx_)%D ((by__ - ay_) / d_of_int ny_)%D
    ((bz_ - az_) / d_of_int nz_)%D
    [] d_zero d_zero d_zero 0 0 0 0.

(** Modelled from the spec: the range test shared by [point_inside] and
    [put_remap], whose bodies are missing.  The coordinate "lies in"
    [[a,b]], bounds included. *)
Definition in_range (a b x : D) : bool := ((a <=? x) && (x <=? b))%D.

(** Modelled from the spec: the periodic remapping, whose code is
    missing.  "Shift by integer multiples of the side length into the
    canonical box." *)
Definition remap (a b x : D) : D :=
  (x - (b - a) * d_of_int (d_floor ((x - a) / (b - a))))%D.

(** Modelled from the spec: [container_base::point_inside], whose body is
    missing.  "True iff (x,y,z) lies in [ax,bx]×[ay,by]×[az,bz] (after
    periodic remap) and every wall reports point_inside."  The walls are
    asked about the remapped point. *)
Definition point_inside (cb : container_base D C) (x y z : D) : bool :=
  let x := if xperiodic cb then remap (ax cb) (bx cb) x else x in
  let y := if yperiodic cb then remap (ay cb) (by_ cb) y else y in
  let z := if zperiodic cb then remap (az cb) (bz cb) z else z in
  in_range (ax cb) (bx cb) x && in_range (ay cb) (by_ cb) y
  && in_range (az cb) (bz cb) z && point_inside_walls (walls cb) x y z.

(** Modelled from the spec: one axis of [put_remap], whose body is
    missing.  The coordinate is remapped on a periodic axis, kept if it is
    in range on a non-periodic one, and rejected otherwise. *)
Definition put_axis (periodic : bool) (a b x : D) : outcome D :=
  if periodic then Done (remap a b x)
  else if in_range a b x then Done x
  else DomainError.

(** Modelled from the spec: [put_remap], whose body is missing.  "If
    non-periodic on an axis, reject points outside [a·,b·]"; "if periodic
    on an axis, shift ... into the canonical box"; "compute ijk from
    floor((·−a·)/box·)". *)
Definition put_remap (cb : container_base D C) (x y z : D) : outcome (Z * D * D * D) :=
  x ← put_axis (xperiodic cb) (ax cb) (bx cb) x;
  y ← put_axis (yperiodic cb) (ay cb) (by_ cb) y;
  z ← put_axis (zperiodic cb) (az cb) (bz cb) z;
  let i := d_floor ((x - ax cb) / boxx cb)%D in
  let j := d_floor ((y - ay cb) / boxy cb)%D in
  let k := d_floor ((z - az cb) / boxz cb)%D in
  Done (i + nx cb * (j + ny cb * k), x, y, z).

(** Modelled from the spec: [add_particle_memory], whose body is missing.
    The capacity of box [i] doubles, "with a ceiling max_particle_memory;
    exceeding it is fatal". *)
Definition add_particle_memory (cb : container_base D C) (i : Z) : outcome (container_base D C) :=
  m ← box (mem cb) i;
  if 2 * m >? max_particle_memory then MemoryError
  else
    Done (set_store cb
            (alter (fun ids => ids ++ replicate (Z.to_nat m) 0) (Z.to_nat i) (id cb))
            (alter (fun row => row ++ replicate (Z.to_nat (ps cb * m)) d_zero)
                   (Z.to_nat i) (p cb))
            (co cb)
            (<[Z.to_nat i := 2 * m]> (mem cb))).

(** Modelled from the spec: [put_locate_block], whose body is missing.
    The box of the point, with room for one more particle: "if
    co[ijk]==mem[ijk], double mem[ijk]". *)
Definition put_locate_block (cb : container_base D C) (x y z : D)
    : outcome (container_base D C * Z * D * D * D) :=
  '(ijk, x, y, z) ← put_remap cb x y z;
  n ← box (co cb) ijk;
  m ← box (mem cb) ijk;
  cb ← (if n =? m then add_particle_memory cb ijk else Done cb);
  Done (cb, ijk, x, y, z).

(** Modelled from the spec: the storing half of [put], whose body is
    missing.  "Append id, coordinates (and r if ps=4)": the particle takes
    slot [co[ijk]] of box [ijk]. *)
Definition append (cb : container_base D C) (ijk n : Z) (data : list D)
    : outcome (container_base D C) :=
  s ← box (co cb) ijk;
  Done (set_store cb
          (alter (fun ids => <[Z.to_nat s := n]> ids) (Z.to_nat ijk) (id cb))
          (alter (fun row => write_from row (Z.to_nat (ps cb * s)) data)
                 (Z.to_nat ijk) (p cb))
          (<[Z.to_nat ijk := s + 1]> (co cb))
          (mem cb)).

(** Modelled from the spec: [clear], whose body is missing.  "Clearing
    resets co[·] to 0; capacities are retained." *)
Definition clear (cb : container_base D C) : container_base D C :=
  set_store cb (id cb) (p cb) ((fun _ => 0) <$> co cb) (mem cb).
End Members.
End container_base.

(** ** [class container] *)

Module container.
Section Plain.
Context {D : Type} `{DoubleOps D} {C : Type} `{VoronoiCell D C}.

(** [vc.compute_cell], of [voropp_compute<container>] ([v_compute.hh]):
    the search that cuts the initialized cell by the neighbouring
    particles. *)
Variable vc_compute_cell :
  container_base D C -> C -> Z -> Z -> Z -> Z -> Z -> D -> D -> D ->
  option (container_base D C * C * bool).

Definition compute_cell (con : container_base D C) (c : C) (vl : v_loop)
    : option (container_base D C * C * bool) :=
  r ← initialize_voronoicell con c vl;
  if negb (in_ok r) then Some (in_con r, in_cell r, false)
  else vc_compute_cell (in_con r) (in_cell r) (vl_ijk vl) (vl_q vl)
         (in_sti r) (in_stj r) (in_stk r)
         (cux (in_con r)) (cuy (in_con r)) (cuz (in_con r)).

Definition r_init (con : container_base D C) (ijk s : Z) : container_base D C := con.

Definition r_cutoff (con : container_base D C) (lrs : D) : D := lrs.

Definition r_scale (con : container_base D C) (rs : D) (ijk q : Z) : D := rs.

(** [max_particle_memory], of [config.hh]. *)
Variable max_particle_memory : Z.

(** Modelled from the spec: [container::clear], whose body is missing. *)
Definition clear (con : container_base D C) : container_base D C :=
  container_base.clear con.

(** Modelled from the spec: [container::put(n,x,y,z)], whose body is
    missing. *)
Definition put (con : container_base D C) (n : Z) (x y z : D)
    : outcome (container_base D C) :=
  '(con, ijk, x, y, z) ← container_base.put_locate_block max_particle_memory con x y z;
  container_base.append con ijk n [x; y; z].
End Plain.
End container.

(** ** [class container_poly] *)

Module container_poly.
Section Poly.
Context {D : Type} `{DoubleOps D} {C : Type} `{VoronoiCell D C}.

(** The members [container_poly] adds to [container_base]. *)
Record t := Make {
  base : container_base D C;
  max_radius : D;
  r_rad : D;
  r_mul : D;
}.

(** [vc.compute_cell], of [voropp_compute<container_poly>]. *)
Variable vc_compute_cell :
  t -> C -> Z -> Z -> Z -> Z -> Z -> D -> D -> D -> option (t * C * bool).

Definition compute_cell (con : t) (c : C) (vl : v_loop) : option (t * C * bool) :=
  r ← initialize_voronoicell (base con) c vl;
  let con := Make (in_con r) (max_radius con) (r_rad con) (r_mul con) in
  if negb (in_ok r) then Some (con, in_cell r, false)
  else vc_compute_cell con (in_cell r) (vl_ijk vl) (vl_q vl)
         (in_sti r) (in_stj r) (in_stk r)
         (cux (base con)) (cuy (base con)) (cuz (base con)).

Definition r_init (con : t) (ijk s : Z) : option t :=
  row ← at_index (p (base con)) ijk;
  r ← at_index row (4 * s + 3);
  let r_rad := r in
  let r_mul :=
    (d_one + (r_rad * r_rad - max_radius con * max_radius con)
             / ((max_radius con + r_rad) * (max_radius con + r_rad)))%D in
  let r_rad := (r_rad * r_rad)%D in
  Some (Make (base con) (max_radius con) r_rad r_mul).

Definition r_cutoff (con : t) (lrs : D) : D := (r_mul con * lrs)%D.

Definition r_scale (con : t) (rs : D) (ijk q : Z) : option D :=
  row ← at_index (p (base con)) ijk;
  r ← at_index row (4 * q + 3);
  Some (rs + r_rad con - r * r)%D.

(** [max_particle_memory], of [config.hh]. *)
Variable max_particle_memory : Z.

(** Modelled from the spec: [container_poly::put(n,x,y,z,r)], whose body
    is missing.  The radius is stored after the position, and
    [max_radius] stays the "max radius over the container". *)
Definition put (con : t) (n : Z) (x y z r : D) : outcome t :=
  '(cb, ijk, x, y, z) ← container_base.put_locate_block max_particle_memory (base con) x y z;
  cb ← container_base.append cb ijk n [x; y; z; r];
  Done (Make cb (if (max_radius con <? r)%D then r else max_radius con)
             (r_rad con) (r_mul con)).
End Poly.

Arguments t : clear implicits.
End container_poly.

(** ** Notions used in the statements *)

Section Bounds.
Context {D : Type} `{DoubleOps D} {C : Type} `{VoronoiCell D C}.

(** The lower bound of the initial cell on one axis: [-L/2] on a periodic
    axis of length [L = b-a] (the code halves by multiplying with 0.5),
    and [a-s] for a source at [s] otherwise. *)
Definition lower_bound (periodic : bool) (a b s : D) : D :=
  if periodic then (- (d_half * (b - a)))%D else (a - s)%D.

(** The upper bound: [+L/2], or [b-s]. *)
Definition upper_bound (periodic : bool) (a b s : D) : D :=
  if periodic then (d_half * (b - a))%D else (b - s)%D.

(** The box that [initialize_voronoicell] sets up around a source at
    [(x,y,z)], before any wall has cut it. *)
Definition initial_cell (cb : container_base D C) (c : C) (x y z : D) : C :=
  init c
    (lower_bound (xperiodic cb) (ax cb) (bx cb) x)
    (upper_bound (xperiodic cb) (ax cb) (bx cb) x)
    (lower_bound (yperiodic cb) (ay cb) (by_ cb) y)
    (upper_bound (yperiodic cb) (ay cb) (by_ cb) y)
    (lower_bound (zperiodic cb) (az cb) (bz cb) z)
    (upper_bound (zperiodic cb) (az cb) (bz cb) z).

(** The reference argument [sti] (or [stj], [stk]) after the call: the
    grid size on a periodic axis, the source's box index otherwise. *)
Definition start_index (periodic : bool) (n cu : Z) : Z :=
  if periodic then n else cu.

(** The particle in slot [q] of box [ijk] is stored at [(x,y,z)]. *)
Definition stored_at (cb : container_base D C) (ijk q : Z) (x y z : D) : Prop :=
  exists pp, at_index (p cb) ijk = Some pp /\
    at_index pp (ps cb * q) = Some x /\
    at_index pp (ps cb * q + 1) = Some y /\
    at_index pp (ps cb * q + 2) = Some z.

(** The radius kept with slot [q] of box [ijk] of a [container_poly]. *)
Definition radius_at (cb : container_base D C) (ijk q : Z) (r : D) : Prop :=
  exists pp, at_index (p cb) ijk = Some pp /\ at_index pp (4 * q + 3) = Some r.

(** One axis of [region_index]: the argument after the wrap, by the three
    cases of [cu+e] (below [n], from [2n] on, in between). *)
Definition wrapped (periodic : bool) (cu n e : Z) : Z :=
  if periodic then
    if cu + e <? n then e + n
    else if 2 * n <=? cu + e then e - n
    else e
  else e.

(** One axis of [region_index]: the displacement, [q] being the value the
    caller's variable held. *)
Definition displacement (periodic : bool) (cu n e : Z) (a b q : D) : D :=
  if periodic then
    if cu + e <? n then (- (b - a))%D
    else if 2 * n <=? cu + e then (b - a)%D
    else d_zero
  else q.

(** The [x] (or [y], [z]) index of the box that [region_index] names: on a
    periodic axis offsets count from [-n], on a non-periodic axis the
    argument is the index itself. *)
Definition target (periodic : bool) (cu n e : Z) : Z :=
  if periodic then cu + wrapped true cu n e - n else e.

(** The constant members of two containers agree. *)
Definition same_geometry (cb cb' : container_base D C) : Prop :=
  ax cb' = ax cb /\ bx cb' = bx cb /\ ay cb' = ay cb /\ by_ cb' = by_ cb /\
  az cb' = az cb /\ bz cb' = bz cb /\
  xperiodic cb' = xperiodic cb /\ yperiodic cb' = yperiodic cb /\
  zperiodic cb' = zperiodic cb /\
  nx cb' = nx cb /\ ny cb' = ny cb /\ nz cb' = nz cb /\
  boxx cb' = boxx cb /\ boxy cb' = boxy cb /\ boxz cb' = boxz cb /\
  ps cb' = ps cb.

(** No capacity is negative. *)
Definition capacities_ok (cb : container_base D C) : Prop :=
  Forall (fun m => 0 <= m) (mem cb).

(** Entry [ijk] of an [int] array has not decreased. *)
Definition not_decreased (old new : list Z) : Prop :=
  forall (ijk : nat) (v : Z), old !! ijk = Some v ->
    exists v', new !! ijk = Some v' /\ v <= v'.
End Bounds.

(** ** Cells and walls to run the code on *)

(** A cell that is just its bounding box [(x1,x2,y1,y2,z1,z2)]. *)
Definition box_cell (D : Type) : Type := (D * D * D * D * D * D)%type.

#[export] Instance box_cell_init (D : Type) : VoronoiCell D (box_cell D) := {
  init := fun _ x1 x2 y1 y2 z1 z2 => (x1, x2, y1, y2, z1, z2);
}.

(** The wall [x <= w]: it lowers the upper [x] bound of a box cell to
    [w - x], and leaves no cell when that lies below the lower bound. *)
Definition wall_below {D : Type} `{DoubleOps D} (w : D) : wall D (box_cell D) :=
  Wall (fun x y z => (x <=? w)%D)
       (fun c x y z =>
          let '(x1, x2, y1, y2, z1, z2) := c in
          let h := (w - x)%D in
          if (h <? x1)%D then (c, false)
          else ((x1, if (h <? x2)%D then h else x2, y1, y2, z1, z2), true)).

Section Samples.
Context {D : Type} `{DoubleOps D}.

(** The unit cube cut into 3×1×1 boxes of capacity 2, not periodic in [y]
    and [z], with the given periodicity in [x], particles and walls. *)
Definition cube_3x1x1 (xperiodic_ : bool) (id_ : list (list Z)) (p_ : list (list D))
    (co_ : list Z) (walls_ : wall_list D (box_cell D)) : container_base D (box_cell D) :=
  ContainerBase d_zero d_one d_zero d_one d_zero d_one
    xperiodic_ false false
    id_ p_ co_ [2; 2; 2] 3
    3 1 1 (d_one / d_of_int 3)%D d_one d_one
    walls_
    d_zero d_zero d_zero 0 0 0 0.

(** A box without particles: two free slots of three doubles. *)
Definition free_box : list D := replicate 6 d_zero.

(** The cube, not periodic and empty. *)
Definition unit_cube : container_base D (box_cell D) :=
  cube_3x1x1 false [[0; 0]; [0; 0]; [0; 0]] [free_box; free_box; free_box]
    [0; 0; 0] [].

(** The box holding particle 7 at (0.5,0.5,0.5). *)
Definition box_of_7 : list D := [d_half; d_half; d_half; d_zero; d_zero; d_zero].

(** The cube with particle 7 at (0.5,0.5,0.5), which is in box 1. *)
Definition one_particle : container_base D (box_cell D) :=
  cube_3x1x1 false [[0; 0]; [7; 0]; [0; 0]] [free_box; box_of_7; free_box]
    [0; 1; 0] [].

(** ... with particle 8 at the same place: box 1 is now full. *)
Definition two_particles : container_base D (box_cell D) :=
  cube_3x1x1 false [[0; 0]; [7; 8]; [0; 0]]
    [free_box; [d_half; d_half; d_half; d_half; d_half; d_half]; free_box]
    [0; 2; 0] [].

(** The walls [x <= 0.75], [x <= -1], [x <= 0.25], added in this order by
    [add_wall]. *)
Definition walls_1_2_3 : wall_list D (box_cell D) :=
  add_wall (wall_below (d_half * d_half)%D)
    (add_wall (wall_below (- d_one)%D)
       (add_wall (wall_below (d_half + d_half * d_half)%D) [])).

(** [one_particle] with these walls: the first cuts the cell of particle 7,
    the second leaves nothing of it. *)
Definition three_walls : container_base D (box_cell D) :=
  cube_3x1x1 false [[0; 0]; [7; 0]; [0; 0]] [free_box; box_of_7; free_box]
    [0; 1; 0] walls_1_2_3.

(** [one_particle], periodic in [x]. *)
Definition periodic_cube : container_base D (box_cell D) :=
  cube_3x1x1 true [[0; 0]; [7; 0]; [0; 0]] [free_box; box_of_7; free_box]
    [0; 1; 0] [].

(** A weighted container [-5,5]^3 of one box and maximum radius [M], with
    particle 0 at the origin, radius [r], and particle 1 at (3,0,0),
    radius [M]. *)
Definition two_spheres (M r : D) : container_poly.t D (box_cell D) :=
  let three := (d_one + d_one + d_one)%D in
  let five := (three + d_one + d_one)%D in
  container_poly.Make
    (ContainerBase (- five)%D five (- five)%D five (- five)%D five
       false false false
       [[0; 1]] [[d_zero; d_zero; d_zero; r; three; d_zero; d_zero; M]] [2] [2] 4
       1 1 1 (five - - five)%D (five - - five)%D (five - - five)%D
       []
       d_zero d_zero d_zero 0 0 0 0)
    M d_zero d_zero.
End Samples.

(** The C++ literal [1.1]: the binary64 number nearest to 11/10. *)
Definition f_1_1 : float := 0x1.199999999999ap+0%float.

(** The loop position of the particle of [one_particle]: box (1,0,0), slot 0. *)
Definition at_particle : v_loop := VLoop 1 0 1 0 0.

(** ** Notions used in the further statements *)

Section MoreNotions.
Context {D : Type} `{DoubleOps D} {C : Type}.

(** The particles and the walls of two containers agree. *)
Definition same_contents (cb cb' : container_base D C) : Prop :=
  id cb' = id cb /\ p cb' = p cb /\ co cb' = co cb /\ mem cb' = mem cb /\
  walls cb' = walls cb.

(** The scratch fields name box [(i,j,k)] as the current one, with [cuijk]
    as [initialize_voronoicell] computes it for that box. *)
Definition current_box (cb : container_base D C) (i j k : Z) : Prop :=
  cui cb = i /\ cuj cb = j /\ cuk cb = k /\
  cuijk cb
  = i + nx cb * (j + ny cb * k)
    - start_index (xperiodic cb) (nx cb) i
    - nx cb * (start_index (yperiodic cb) (ny cb) j
               + ny cb * start_index (zperiodic cb) (nz cb) k).

(** An argument of [region_index] that stays within reach on one axis: at
    most one period outside the grid on a periodic axis, and a box index of
    the grid on a non-periodic one. *)
Definition in_reach (periodic : bool) (cu n e : Z) : Prop :=
  if periodic then 0 <= cu + e < 3 * n else 0 <= e < n.

(** The argument that leads from the box reached back to the source box
    [cu]: the opposite offset on a periodic axis (offsets count from [n]),
    the index of the source box on a non-periodic one. *)
Definition way_back (periodic : bool) (cu n e : Z) : Z :=
  if periodic then 2 * n - e else cu.
End MoreNotions.

(** In exact arithmetic: the coordinate [x] lies in box number [i] of an
    axis that starts at [a] and has boxes of side [side]. *)
Definition in_box_of (a side : Q) (i : Z) (x : Q) : Prop :=
  (a + side * inject_Z i <= x /\ x < a + side * (inject_Z i + 1))%Q.

(** * Properties *)

(** ** The wall list *)

Section WallFacts.
Context {D C : Type}.
Implicit Types (ws pre post : wall_list D C) (w : wall D C) (c : C) (x y z : D).

Lemma point_inside_walls_forallb ws x y z :
  point_inside_walls ws x y z = forallb (fun w => point_inside w x y z) ws.
Proof.
  induction ws as [|w ws IH]; simpl; [reflexivity|].
  rewrite IH. destruct (point_inside w x y z); reflexivity.
Qed.

Lemma point_inside_walls_true ws x y z :
  point_inside_walls ws x y z = true <->
  Forall (fun w => point_inside w x y z = true) ws.
Proof.
  rewrite point_inside_walls_forallb, forallb_forall, Forall_forall.
  split; intros Hall w Hw; apply Hall; apply list_elem_of_In; exact Hw.
Qed.

(** The first wall that the point is outside of decides the answer. *)
Lemma point_inside_walls_false ws x y z :
  point_inside_walls ws x y z = false <->
  exists pre w post, ws = pre ++ w :: post /\
    point_inside_walls pre x y z = true /\ point_inside w x y z = false.
Proof.
  induction ws as [|w0 ws IH]; simpl.
  - split; [discriminate|]. intros (pre & w & post & Heq & _).
    destruct pre; discriminate.
  - destruct (point_inside w0 x y z) eqn:E0; simpl.
    + rewrite IH. split.
      * intros (pre & w & post & -> & Hpre & Hw).
        exists (w0 :: pre), w, post. simpl. rewrite E0. simpl. auto.
      * intros (pre & w & post & Heq & Hpre & Hw).
        destruct pre as [|w1 pre]; simpl in *.
        -- injection Heq as -> ->. congruence.
        -- injection Heq as -> ->. rewrite E0 in Hpre. simpl in Hpre.
           exists pre, w, post. auto.
    + split; [|reflexivity]. intros _. exists [], w0, ws. auto.
Qed.

Lemma apply_walls_survive ws c x y z :
  all_survive ws c x y z ->
  apply_walls ws c x y z = (cut_by_all ws c x y z, true).
Proof.
  revert c. induction ws as [|w ws IH]; intros c; simpl; [reflexivity|].
  intros [Hw Hrest]. unfold cut_by_all in *. simpl.
  destruct (cut_cell w c x y z) as [c' ok]. simpl in *. subst ok. simpl.
  apply IH, Hrest.
Qed.

Lemma apply_walls_true ws c x y z :
  snd (apply_walls ws c x y z) = true -> all_survive ws c x y z.
Proof.
  revert c. induction ws as [|w ws IH]; intros c; simpl; [auto|].
  destruct (cut_cell w c x y z) as [c' ok]. destruct ok; simpl.
  - intros Hrest. split; [reflexivity|]. apply IH, Hrest.
  - discriminate.
Qed.

Lemma cut_by_all_app pre post c x y z :
  cut_by_all (pre ++ post) c x y z = cut_by_all post (cut_by_all pre c x y z) x y z.
Proof. unfold cut_by_all. apply fold_left_app. Qed.

Lemma all_survive_app pre post c x y z :
  all_survive (pre ++ post) c x y z <->
  all_survive pre c x y z /\ all_survive post (cut_by_all pre c x y z) x y z.
Proof.
  revert c. induction pre as [|w pre IH]; intros c; simpl.
  - unfold cut_by_all. simpl. tauto.
  - rewrite IH. unfold cut_by_all. simpl. tauto.
Qed.

(** The walls before the first failing one cut the cell, the failing one
    leaves it as it wishes, and the answer no longer depends on the walls
    behind it. *)
Lemma apply_walls_first_failure pre w post c x y z :
  all_survive pre c x y z ->
  snd (cut_cell w (cut_by_all pre c x y z) x y z) = false ->
  apply_walls (pre ++ w :: post) c x y z
  = (fst (cut_cell w (cut_by_all pre c x y z) x y z), false).
Proof.
  revert c. induction pre as [|w0 pre IH]; intros c; simpl.
  - unfold cut_by_all. simpl. intros _ Hw.
    destruct (cut_cell w c x y z) as [c' ok]. simpl in *. subst ok. reflexivity.
  - intros [Hw0 Hpre] Hw. unfold cut_by_all in *. simpl in *.
    destruct (cut_cell w0 c x y z) as [c' ok]. simpl in *. subst ok. simpl.
    apply IH; assumption.
Qed.

Lemma apply_walls_false ws c x y z :
  snd (apply_walls ws c x y z) = false ->
  exists pre w post, ws = pre ++ w :: post /\
    all_survive pre c x y z /\
    snd (cut_cell w (cut_by_all pre c x y z) x y z) = false.
Proof.
  revert c. induction ws as [|w0 ws IH]; intros c; simpl; [discriminate|].
  destruct (cut_cell w0 c x y z) as [c' ok] eqn:E. destruct ok; simpl.
  - intros Hrest. destruct (IH _ Hrest) as (pre & w & post & -> & Hpre & Hw).
    exists (w0 :: pre), w, post. unfold cut_by_all in *. simpl. rewrite E. simpl.
    auto.
  - intros _. exists [], w0, ws. unfold cut_by_all. simpl. rewrite E. auto.
Qed.

(** Recording the invocations does not change what the walls do. *)
Lemma traced_survive (k : nat) ws c (l : list nat) x y z :
  all_survive ws c x y z ->
  apply_walls (imap (fun i => traced (k + i)) ws) (c, l) x y z
  = ((cut_by_all ws c x y z, l ++ seq k (length ws)), true).
Proof.
  revert k c l. induction ws as [|w ws IH]; intros k c l; simpl.
  - intros _. unfold cut_by_all. simpl. rewrite app_nil_r. reflexivity.
  - intros [Hw Hrest]. unfold cut_by_all in *. simpl.
    destruct (cut_cell w c x y z) as [c' ok]. simpl in *. subst ok. simpl.
    rewrite (imap_ext _ (fun i => traced (S k + i)))
      by (intros i a _; simpl; f_equal; lia).
    rewrite IH by assumption. rewrite Nat.add_0_r, <- app_assoc. reflexivity.
Qed.

Lemma traced_first_failure (k : nat) pre w post c (l : list nat) x y z :
  all_survive pre c x y z ->
  snd (cut_cell w (cut_by_all pre c x y z) x y z) = false ->
  apply_walls (imap (fun i => traced (k + i)) (pre ++ w :: post)) (c, l) x y z
  = ((fst (cut_cell w (cut_by_all pre c x y z) x y z),
      l ++ seq k (S (length pre))), false).
Proof.
  revert k c l. induction pre as [|w0 pre IH]; intros k c l; simpl.
  - unfold cut_by_all. simpl. intros _ Hw.
    destruct (cut_cell w c x y z) as [c' ok]. simpl in *. subst ok. simpl.
    rewrite Nat.add_0_r. reflexivity.
  - intros [Hw0 Hpre] Hw. unfold cut_by_all in *. simpl in *.
    destruct (cut_cell w0 c x y z) as [c' ok]. simpl in *. subst ok. simpl.
    rewrite (imap_ext _ (fun i => traced (S k + i)))
      by (intros i a _; simpl; f_equal; lia).
    rewrite IH by assumption. rewrite Nat.add_0_r, <- app_assoc. reflexivity.
Qed.

Lemma invoked_survive ws c x y z :
  all_survive ws c x y z -> invoked ws c x y z = seq 0 (length ws).
Proof.
  intros Hall. unfold invoked.
  rewrite (imap_ext _ (fun i => traced (0 + i))) by reflexivity.
  rewrite traced_survive by assumption. reflexivity.
Qed.

Lemma invoked_first_failure pre w post c x y z :
  all_survive pre c x y z ->
  snd (cut_cell w (cut_by_all pre c x y z) x y z) = false ->
  invoked (pre ++ w :: post) c x y z = seq 0 (S (length pre)).
Proof.
  intros Hpre Hw. unfold invoked.
  rewrite (imap_ext _ (fun i => traced (0 + i))) by reflexivity.
  rewrite traced_first_failure by assumption. reflexivity.
Qed.
End WallFacts.

(** C4. [apply_walls] invokes the walls' [cut_cell] in the order in which
    [add_wall] stored them and stops at the first cut that leaves no cell.
    It returns true exactly when every cut, applied in turn, survives; the
    cell is then the one cut by all walls and every wall was invoked once,
    a wall added later being invoked last.  When the walls [pre] survive and
    the next wall [w] does not, the call returns false with the cell as [w]
    left it, and the walls invoked are [pre] and [w] only: none of [post].
    A false answer always arises in this way. *)
Theorem apply_walls_in_order_short_circuit :
  forall (D C : Type) (ws : wall_list D C) (c : C) (x y z : D),
    (snd (apply_walls ws c x y z) = true <-> all_survive ws c x y z) /\
    (all_survive ws c x y z ->
       apply_walls ws c x y z = (cut_by_all ws c x y z, true) /\
       invoked ws c x y z = seq 0 (length ws) /\
       forall w, invoked (add_wall w ws) c x y z = invoked ws c x y z ++ [length ws]) /\
    (forall pre w post,
       ws = pre ++ w :: post ->
       all_survive pre c x y z ->
       snd (cut_cell w (cut_by_all pre c x y z) x y z) = false ->
       apply_walls ws c x y z
       = (fst (cut_cell w (cut_by_all pre c x y z) x y z), false) /\
       invoked ws c x y z = seq 0 (S (length pre))) /\
    (snd (apply_walls ws c x y z) = false ->
       exists pre w post, ws = pre ++ w :: post /\
         all_survive pre c x y z /\
         snd (cut_cell w (cut_by_all pre c x y z) x y z) = false).
Proof.
  intros D C ws c x y z. repeat split.
  - apply apply_walls_true.
  - intros Hall. rewrite apply_walls_survive by assumption. reflexivity.
  - apply apply_walls_survive. assumption.
  - apply invoked_survive. assumption.
  - intros w. rewrite (invoked_survive ws) by assumption.
    rewrite <- seq_S. unfold add_wall.
    destruct (snd (cut_cell w (cut_by_all ws c x y z) x y z)) eqn:Ew.
    + rewrite invoked_survive.
      * rewrite length_app. simpl length. replace (length ws + 1)%nat with (S (length ws)) by lia. reflexivity.
      * apply all_survive_app. simpl. auto.
    + apply invoked_first_failure; assumption.
  - subst ws. apply apply_walls_first_failure; assumption.
  - subst ws. apply invoked_first_failure; assumption.
  - apply apply_walls_false.
Qed.

(** C4 on the three walls of [three_walls] in binary64: the first cuts the
    cell of particle 7 down to [x2 = 0.25], the second leaves nothing, the
    third is not invoked. *)
Lemma apply_walls_in_order_short_circuit_witness :
  let ws := walls (three_walls (D:=float)) in
  let c := (-0.5, 0.5, -0.5, 0.5, -0.5, 0.5)%float in
  all_survive (take 1 ws) c 0.5%float 0.5%float 0.5%float /\
  apply_walls ws c 0.5%float 0.5%float 0.5%float
  = ((-0.5, 0.25, -0.5, 0.5, -0.5, 0.5)%float, false) /\
  invoked ws c 0.5%float 0.5%float 0.5%float = [0%nat; 1%nat].
Proof.
  intros ws c.
  assert (Hpre : all_survive (take 1 ws) c 0.5%float 0.5%float 0.5%float)
    by (vm_compute; auto).
  split; [exact Hpre|].
  exact (proj1 (proj2 (proj2
           (apply_walls_in_order_short_circuit float (box_cell float) ws c
              0.5%float 0.5%float 0.5%float)))
           (take 1 ws) (wall_below (-1)%float) (drop 2 ws)
           eq_refl Hpre eq_refl).
Defined.


(** ** Cell initialization *)

Section InitFacts.
Context {D : Type} `{DoubleOps D} {C : Type} `{VoronoiCell D C}.
Implicit Types (cb : container_base D C) (c : C) (vl : v_loop) (x y z : D).

(** What [initialize_voronoicell] does when the particle is there: the
    scratch fields take the particle's position and box, the cell is the
    initial box cut by the walls, and [cuijk] is set only if a cell is
    left. *)
Lemma initialize_voronoicell_stored cb c vl x y z :
  stored_at cb (vl_ijk vl) (vl_q vl) x y z ->
  let cb1 := set_current cb x y z (vl_i vl) (vl_j vl) (vl_k vl) in
  let cut := apply_walls (walls cb) (initial_cell cb c x y z) x y z in
  let sti := start_index (xperiodic cb) (nx cb) (vl_i vl) in
  let stj := start_index (yperiodic cb) (ny cb) (vl_j vl) in
  let stk := start_index (zperiodic cb) (nz cb) (vl_k vl) in
  initialize_voronoicell cb c vl
  = Some (Initialized
            (if snd cut
             then set_cuijk cb1 (vl_ijk vl - sti - nx cb * (stj + ny cb * stk))
             else cb1)
            (fst cut) sti stj stk (snd cut)).
Proof.
  intros (pp & Hpp & Hx & Hy & Hz). unfold initialize_voronoicell.
  rewrite Hpp. simpl. rewrite Hx, Hy, Hz. simpl.
  unfold initial_cell, lower_bound, upper_bound, start_index.
  destruct (xperiodic cb), (yperiodic cb), (zperiodic cb); simpl;
    match goal with
    | |- context [apply_walls ?ws ?c0 x y z] =>
        destruct (apply_walls ws c0 x y z) as [c' ok]
    end; destruct ok; reflexivity.
Qed.
End InitFacts.

(** C1. For a particle stored at [(x,y,z)] in slot [vl.q] of box [vl.ijk],
    [initialize_voronoicell] succeeds, takes [(x,y,z)] as the source, and
    the cell it hands to the walls is [c.init] of the box whose bounds on an
    axis are [a-source] and [b-source] if the axis is not periodic, and
    [-(0.5*L)] and [0.5*L] with [L = b-a] if it is.  This holds in every
    arithmetic, binary64 included; in exact arithmetic [0.5*L] is [L/2]. *)
Theorem initialize_voronoicell_initial_box :
  (forall (D : Type) (HD : DoubleOps D) (C : Type) (HC : VoronoiCell D C)
          (cb : container_base D C) (c : C) (vl : v_loop) (x y z : D),
     stored_at cb (vl_ijk vl) (vl_q vl) x y z ->
     exists r, initialize_voronoicell cb c vl = Some r /\
       (in_cell r, in_ok r)
       = apply_walls (walls cb) (initial_cell cb c x y z) x y z /\
       cux (in_con r) = x /\ cuy (in_con r) = y /\ cuz (in_con r) = z /\
       initial_cell cb c x y z
       = init c
           (if xperiodic cb then - (d_half * (bx cb - ax cb)) else ax cb - x)%D
           (if xperiodic cb then d_half * (bx cb - ax cb) else bx cb - x)%D
           (if yperiodic cb then - (d_half * (by_ cb - ay cb)) else ay cb - y)%D
           (if yperiodic cb then d_half * (by_ cb - ay cb) else by_ cb - y)%D
           (if zperiodic cb then - (d_half * (bz cb - az cb)) else az cb - z)%D
           (if zperiodic cb then d_half * (bz cb - az cb) else bz cb - z)%D) /\
  (forall a b s : Q,
     (lower_bound true a b s == - ((b - a) / 2))%Q /\
     (upper_bound true a b s == (b - a) / 2)%Q).
Proof.
  split.
  - intros D HD C HC cb c vl x y z Hst.
    eexists. split; [apply initialize_voronoicell_stored; exact Hst|].
    simpl. split; [symmetry; apply surjective_pairing|].
    destruct (snd (apply_walls _ _ _ _ _)); simpl; auto.
  - intros a b s. unfold lower_bound, upper_bound. simpl. split; field.
Qed.

(** C1 on the periodic cube in binary64: the particle at (0.5,0.5,0.5) gets
    the box [-0.5,0.5] on the periodic axis and on the two others. *)
Lemma initialize_voronoicell_initial_box_witness :
  stored_at (periodic_cube (D:=float)) 1 0 0.5%float 0.5%float 0.5%float /\
  exists r,
    initialize_voronoicell (periodic_cube (D:=float))
      (0, 0, 0, 0, 0, 0)%float at_particle = Some r /\
    in_cell r = (-0.5, 0.5, -0.5, 0.5, -0.5, 0.5)%float /\
    in_ok r = true.
Proof.
  assert (Hst : stored_at (periodic_cube (D:=float)) 1 0 0.5%float 0.5%float 0.5%float).
  { exists [0.5; 0.5; 0.5; 0; 0; 0]%float. vm_compute. auto. }
  split; [exact Hst|].
  destruct (proj1 initialize_voronoicell_initial_box float _ _ _
              periodic_cube (0, 0, 0, 0, 0, 0)%float at_particle _ _ _ Hst)
    as (r & Hr & Hcut & _).
  exists r. split; [exact Hr|].
  vm_compute in Hcut. injection Hcut as Hc Hk. auto.
Defined.


(** C5. For a stored particle, [initialize_voronoicell] returns a value in
    every case, and the flag it returns is the answer of [apply_walls] on
    the initial box: false when a wall left no cell, true otherwise.  When
    it is false, [compute_cell] of [container] and of [container_poly]
    return false as well, whatever the search [vc.compute_cell] would do,
    with the cell as the walls left it. *)
Theorem wall_annihilation_is_no_cell :
  forall (D : Type) (HD : DoubleOps D) (C : Type) (HC : VoronoiCell D C)
         (cb : container_base D C) (c : C) (vl : v_loop) (x y z : D)
         (vc : container_base D C -> C -> Z -> Z -> Z -> Z -> Z -> D -> D -> D ->
               option (container_base D C * C * bool))
         (vcp : container_poly.t D C -> C -> Z -> Z -> Z -> Z -> Z -> D -> D -> D ->
                option (container_poly.t D C * C * bool))
         (con : container_poly.t D C),
    stored_at cb (vl_ijk vl) (vl_q vl) x y z ->
    container_poly.base con = cb ->
    exists r, initialize_voronoicell cb c vl = Some r /\
      in_ok r = snd (apply_walls (walls cb) (initial_cell cb c x y z) x y z) /\
      in_cell r = fst (apply_walls (walls cb) (initial_cell cb c x y z) x y z) /\
      (in_ok r = false ->
         container.compute_cell vc cb c vl = Some (in_con r, in_cell r, false) /\
         container_poly.compute_cell vcp con c vl
         = Some (container_poly.Make (in_con r) (container_poly.max_radius con)
                   (container_poly.r_rad con) (container_poly.r_mul con),
                 in_cell r, false)).
Proof.
  intros D HD C HC cb c vl x y z vc vcp con Hst Hcon.
  eexists. split; [apply initialize_voronoicell_stored; exact Hst|].
  simpl. split; [reflexivity|]. split; [reflexivity|].
  intros Hko. unfold container.compute_cell, container_poly.compute_cell.
  rewrite Hcon, (initialize_voronoicell_stored cb c vl x y z Hst).
  simpl. rewrite Hko. simpl. auto.
Qed.

(** C5 on [three_walls] in binary64: the wall [x <= -1] leaves nothing of
    the cell of the particle at (0.5,0.5,0.5), and both [compute_cell]
    return false although the search given to them would return true. *)
Lemma wall_annihilation_is_no_cell_witness :
  let cb := three_walls (D:=float) in
  let con := container_poly.Make cb 0%float 0%float 0%float in
  let c := (0, 0, 0, 0, 0, 0)%float in
  stored_at cb 1 0 0.5%float 0.5%float 0.5%float /\
  exists r, initialize_voronoicell cb c at_particle = Some r /\
    in_ok r = false /\
    snd <$> container.compute_cell
              (fun cb' c' _ _ _ _ _ _ _ _ => Some (cb', c', true)) cb c at_particle
    = Some false /\
    snd <$> container_poly.compute_cell
              (fun cb' c' _ _ _ _ _ _ _ _ => Some (cb', c', true)) con c at_particle
    = Some false.
Proof.
  intros cb con c.
  assert (Hst : stored_at cb 1 0 0.5%float 0.5%float 0.5%float).
  { exists [0.5; 0.5; 0.5; 0; 0; 0]%float. vm_compute. auto. }
  split; [exact Hst|].
  destruct (wall_annihilation_is_no_cell float _ _ _ cb c at_particle _ _ _
              (fun cb' c' _ _ _ _ _ _ _ _ => Some (cb', c', true))
              (fun cb' c' _ _ _ _ _ _ _ _ => Some (cb', c', true))
              con Hst eq_refl)
    as (r & Hr & Hok & _ & Hcc).
  assert (Hko : in_ok r = false) by (rewrite Hok; vm_compute; reflexivity).
  destruct (Hcc Hko) as [Hc1 Hc2].
  exists r. rewrite Hc1, Hc2. auto.
Defined.

(** C9. With no wall, [point_inside_walls] is true at every point,
    [apply_walls] returns true and hands the cell back as it received it,
    having invoked no [cut_cell]; so [initialize_voronoicell] returns true
    with the cell exactly as [c.init] made it. *)
Theorem no_walls_no_cut :
  forall (D : Type) (HD : DoubleOps D) (C : Type) (HC : VoronoiCell D C)
         (c : C) (x y z : D),
    point_inside_walls (C:=C) [] x y z = true /\
    apply_walls [] c x y z = (c, true) /\
    invoked [] c x y z = [] /\
    (forall (cb : container_base D C) (vl : v_loop),
       walls cb = [] ->
       stored_at cb (vl_ijk vl) (vl_q vl) x y z ->
       exists r, initialize_voronoicell cb c vl = Some r /\
         in_cell r = initial_cell cb c x y z /\ in_ok r = true).
Proof.
  intros D HD C HC c x y z. repeat split.
  intros cb vl Hws Hst. eexists.
  split; [apply initialize_voronoicell_stored; exact Hst|].
  rewrite Hws. simpl. auto.
Qed.

(** C9 on [one_particle], which has no wall, in exact arithmetic. *)
Lemma no_walls_no_cut_witness :
  walls (one_particle (D:=Q)) = [] /\
  stored_at (one_particle (D:=Q)) 1 0 (1 # 2)%Q (1 # 2)%Q (1 # 2)%Q /\
  exists r,
    initialize_voronoicell (one_particle (D:=Q)) (0, 0, 0, 0, 0, 0)%Q at_particle
    = Some r /\
    in_cell r = ((0 - (1 # 2))%Q, (1 - (1 # 2))%Q, (0 - (1 # 2))%Q,
                 (1 - (1 # 2))%Q, (0 - (1 # 2))%Q, (1 - (1 # 2))%Q) /\
    in_ok r = true.
Proof.
  assert (Hst : stored_at (one_particle (D:=Q)) 1 0 (1 # 2)%Q (1 # 2)%Q (1 # 2)%Q).
  { exists [1 # 2; 1 # 2; 1 # 2; 0; 0; 0]%Q. vm_compute. auto. }
  split; [reflexivity|]. split; [exact Hst|].
  exact (proj2 (proj2 (proj2
           (no_walls_no_cut Q _ (box_cell Q) _ (0, 0, 0, 0, 0, 0)%Q
              (1 # 2)%Q (1 # 2)%Q (1 # 2)%Q)))
           one_particle at_particle eq_refl Hst).
Defined.


(** ** The point-in-domain test *)

Lemma in_range_exact (a b x : Q) :
  container_base.in_range a b x = true <-> (a <= x /\ x <= b)%Q.
Proof.
  unfold container_base.in_range. simpl.
  rewrite andb_true_iff, !Qle_bool_iff. reflexivity.
Qed.

(** In exact arithmetic the remapping moves a point by a whole number of
    side lengths into [[a,b)]. *)
Lemma remap_exact (a b x : Q) :
  (a < b)%Q ->
  (a <= container_base.remap a b x /\ container_base.remap a b x < b)%Q /\
  exists n : Z, (container_base.remap a b x == x - inject_Z n * (b - a))%Q.
Proof.
  intros Hab. unfold container_base.remap.
  cbn [d_sub d_mul d_div d_floor d_of_int exactQ].
  assert (Ht : ((x - a) / (b - a) * (b - a) == x - a)%Q) by (field; lra).
  pose proof (Qfloor_le ((x - a) / (b - a))) as Hlo.
  pose proof (Qlt_floor ((x - a) / (b - a))) as Hhi.
  rewrite inject_Z_plus in Hhi. change (inject_Z 1) with 1%Q in Hhi.
  split; [|exists (Qfloor ((x - a) / (b - a))); ring].
  revert Ht Hlo Hhi.
  generalize (inject_Z (Qfloor ((x - a) / (b - a)))) as n.
  generalize ((x - a) / (b - a))%Q as t.
  intros t n Ht Hlo Hhi.
  assert (H1 : (n * (b - a) <= t * (b - a))%Q)
    by (apply Qmult_le_compat_r; lra).
  assert (H2 : (t * (b - a) < (n + 1) * (b - a))%Q)
    by (apply Qmult_lt_compat_r; lra).
  split; lra.
Qed.

(** C3. The container's [point_inside] is true exactly when the point,
    remapped on the periodic axes, passes the range test [a <= . <= b] on
    each axis and every wall of the list reports [point_inside] for it.
    [point_inside_walls] is the conjunction of the walls' answers, taken in
    order: it is false exactly when some wall says no after all walls
    before it said yes.  In exact arithmetic the range test is membership in
    [[a,b]], and the remapping shifts by a whole number of side lengths
    into [[a,b)]. *)
Theorem point_inside_domain_and_walls :
  (forall (D : Type) (HD : DoubleOps D) (C : Type) (HC : VoronoiCell D C)
          (cb : container_base D C) (ws : wall_list D C) (x y z : D),
     let x' := if xperiodic cb then container_base.remap (ax cb) (bx cb) x else x in
     let y' := if yperiodic cb then container_base.remap (ay cb) (by_ cb) y else y in
     let z' := if zperiodic cb then container_base.remap (az cb) (bz cb) z else z in
     (container_base.point_inside cb x y z = true <->
        container_base.in_range (ax cb) (bx cb) x' = true /\
        container_base.in_range (ay cb) (by_ cb) y' = true /\
        container_base.in_range (az cb) (bz cb) z' = true /\
        Forall (fun w => point_inside w x' y' z' = true) (walls cb)) /\
     point_inside_walls ws x y z = forallb (fun w => point_inside w x y z) ws /\
     (point_inside_walls ws x y z = true <->
        Forall (fun w => point_inside w x y z = true) ws) /\
     (point_inside_walls ws x y z = false <->
        exists pre w post, ws = pre ++ w :: post /\
          Forall (fun w' => point_inside w' x y z = true) pre /\
          point_inside w x y z = false)) /\
  (forall a b x : Q,
     container_base.in_range a b x = true <-> (a <= x /\ x <= b)%Q) /\
  (forall a b x : Q,
     (a < b)%Q ->
     (a <= container_base.remap a b x /\ container_base.remap a b x < b)%Q /\
     exists n : Z, (container_base.remap a b x == x - inject_Z n * (b - a))%Q).
Proof.
  split; [|split; [apply in_range_exact | apply remap_exact]].
  intros D HD C HC cb ws x y z x' y' z'.
  split; [|split; [|split]].
  - unfold container_base.point_inside. fold x' y' z'.
    rewrite !andb_true_iff, point_inside_walls_true. tauto.
  - apply point_inside_walls_forallb.
  - apply point_inside_walls_true.
  - rewrite point_inside_walls_false. split.
    + intros (pre & w & post & Heq & Hpre & Hw).
      exists pre, w, post. rewrite <- point_inside_walls_true. auto.
    + intros (pre & w & post & Heq & Hpre & Hw).
      exists pre, w, post. rewrite point_inside_walls_true. auto.
Qed.

(** C3 in exact arithmetic: 13/10 is remapped into the unit interval, to
    13/10 - 1. *)
Lemma point_inside_domain_and_walls_witness :
  (0 < 1)%Q /\
  (0 <= container_base.remap 0 1 (13 # 10) /\
   container_base.remap 0 1 (13 # 10) < 1)%Q.
Proof.
  assert (H01 : (0 < 1)%Q) by reflexivity.
  split; [exact H01|].
  exact (proj1 (proj2 (proj2 point_inside_domain_and_walls) 0%Q 1%Q (13 # 10)%Q H01)).
Defined.

(** ** The radical variant *)

(** C2. After [r_init] for a source of radius [r_s] in a container of
    maximum radius [M], [r_scale] turns the squared distance [lrs] to a
    candidate of radius [r_t] into [lrs + r_s*r_s - r_t*r_t], and
    [r_cutoff] multiplies [lrs] by
    [r_mul = 1 + (r_s*r_s - M*M)/((M+r_s)*(M+r_s))].  [r_init] changes
    neither the particles nor [max_radius].  This holds in every
    arithmetic, binary64 included. *)
Theorem radical_scale_and_cutoff :
  forall (D : Type) (HD : DoubleOps D) (C : Type) (HC : VoronoiCell D C)
         (con : container_poly.t D C) (ijk s jjk q : Z) (r_s r_t lrs : D),
    let M := container_poly.max_radius con in
    radius_at (container_poly.base con) ijk s r_s ->
    radius_at (container_poly.base con) jjk q r_t ->
    exists con', container_poly.r_init con ijk s = Some con' /\
      container_poly.r_scale con' lrs jjk q = Some (lrs + r_s * r_s - r_t * r_t)%D /\
      container_poly.r_mul con'
      = (d_one + (r_s * r_s - M * M) / ((M + r_s) * (M + r_s)))%D /\
      container_poly.r_cutoff con' lrs = (container_poly.r_mul con' * lrs)%D /\
      container_poly.base con' = container_poly.base con /\
      container_poly.max_radius con' = M.
Proof.
  intros D HD C HC con ijk s jjk q r_s r_t lrs M
    (row & Hrow & Hs) (row' & Hrow' & Ht).
  unfold container_poly.r_init. rewrite Hrow. simpl. rewrite Hs. simpl.
  eexists. split; [reflexivity|].
  unfold container_poly.r_scale, container_poly.r_cutoff. simpl.
  rewrite Hrow'. simpl. rewrite Ht. simpl. auto.
Qed.

(** C2 in binary64, on the two spheres of radius 1 and 2 at distance 3:
    the effective cut value is 9 + 1 - 4 = 6. *)
Lemma radical_scale_and_cutoff_witness :
  let con := two_spheres (D:=float) 2%float 1%float in
  radius_at (container_poly.base con) 0 0 1%float /\
  radius_at (container_poly.base con) 0 1 2%float /\
  exists con', container_poly.r_init con 0 0 = Some con' /\
    container_poly.r_scale con' 9%float 0 1 = Some 6%float /\
    container_poly.r_cutoff con' 9%float
    = ((1 + (1 * 1 - 2 * 2) / ((2 + 1) * (2 + 1))) * 9)%float.
Proof.
  intros con.
  assert (H0 : radius_at (container_poly.base con) 0 0 1%float).
  { exists [0; 0; 0; 1; 1 + 1 + 1; 0; 0; 2]%float. vm_compute. auto. }
  assert (H1 : radius_at (container_poly.base con) 0 1 2%float).
  { exists [0; 0; 0; 1; 1 + 1 + 1; 0; 0; 2]%float. vm_compute. auto. }
  split; [exact H0|]. split; [exact H1|].
  destruct (radical_scale_and_cutoff float _ _ _ con 0 0 0 1 _ _ 9%float H0 H1)
    as (con' & Hinit & Hscale & Hmul & Hcut & _).
  exists con'. split; [exact Hinit|]. split; [exact Hscale|].
  rewrite Hcut, Hmul. reflexivity.
Defined.

(** The multiplier in closed form: in exact arithmetic
    [1 + (r*r - M*M)/((M+r)*(M+r))] is [2*r/(M+r)]. *)
Lemma r_mul_closed_form (r M : Q) :
  (0 <= r)%Q -> (0 < M)%Q ->
  (1 + (r * r - M * M) / ((M + r) * (M + r)) == 2 * r / (M + r))%Q.
Proof. intros Hr HM. field. lra. Qed.

Lemma r_mul_range (r M : Q) :
  (0 <= r)%Q -> (r <= M)%Q -> (0 < M)%Q ->
  (0 <= 2 * r / (M + r) /\ 2 * r / (M + r) <= 1)%Q.
Proof.
  intros Hr HrM HM. split.
  - apply Qle_shift_div_l; lra.
  - apply Qle_shift_div_r; lra.
Qed.

Lemma r_mul_positive (r M : Q) :
  (0 < r)%Q -> (0 < M)%Q -> (0 < 2 * r / (M + r))%Q.
Proof. intros Hr HM. apply Qlt_shift_div_l; lra. Qed.

(** C10, as the code has it.  In exact arithmetic, for a source radius with
    [0 <= r_s <= max_radius] and [max_radius > 0], the multiplier set by
    [r_init] satisfies [0 <= r_mul <= 1]; it is positive when [r_s > 0] and
    it is 0 when [r_s = 0].  Hence [r_cutoff(lrs) <= lrs] for [lrs >= 0]. *)
Theorem r_mul_between_zero_and_one :
  forall (C : Type) (HC : VoronoiCell Q C) (con : container_poly.t Q C)
         (ijk s : Z) (r_s : Q),
    radius_at (container_poly.base con) ijk s r_s ->
    (0 <= r_s)%Q -> (r_s <= container_poly.max_radius con)%Q ->
    (0 < container_poly.max_radius con)%Q ->
    exists con', container_poly.r_init con ijk s = Some con' /\
      (0 <= container_poly.r_mul con')%Q /\
      (container_poly.r_mul con' <= 1)%Q /\
      ((0 < r_s)%Q -> (0 < container_poly.r_mul con')%Q) /\
      ((r_s == 0)%Q -> (container_poly.r_mul con' == 0)%Q) /\
      (forall lrs : Q, (0 <= lrs)%Q -> (container_poly.r_cutoff con' lrs <= lrs)%Q).
Proof.
  intros C HC con ijk s r_s (row & Hrow & Hs) H0 HM HM0.
  unfold container_poly.r_init. rewrite Hrow. simpl. rewrite Hs. simpl.
  eexists. split; [reflexivity|].
  unfold container_poly.r_cutoff. simpl.
  set (M := container_poly.max_radius con) in *.
  pose proof (r_mul_closed_form r_s M H0 HM0) as Hcf.
  destruct (r_mul_range r_s M H0 HM HM0) as [Hlo Hhi].
  rewrite <- Hcf in Hlo, Hhi.
  split; [exact Hlo|]. split; [exact Hhi|]. split; [|split].
  - intros Hpos. rewrite Hcf. apply r_mul_positive; assumption.
  - intros Hz. rewrite Hcf, Hz. field. lra.
  - intros lrs Hl.
    generalize dependent (1 + (r_s * r_s - M * M) / ((M + r_s) * (M + r_s)))%Q.
    intros m _ Hlo Hhi.
    assert (Hprod : (0 <= (1 - m) * lrs)%Q) by (apply Qmult_le_0_compat; lra).
    lra.
Qed.

(** C10 in exact arithmetic on the two spheres of radius 1 and 2. *)
Lemma r_mul_between_zero_and_one_witness :
  let con := two_spheres (D:=Q) 2%Q 1%Q in
  radius_at (container_poly.base con) 0 0 1%Q /\
  (0 <= 1)%Q /\ (1 <= container_poly.max_radius con)%Q /\
  (0 < container_poly.max_radius con)%Q /\
  exists con', container_poly.r_init con 0 0 = Some con' /\
    (0 <= container_poly.r_mul con')%Q /\
    (container_poly.r_mul con' <= 1)%Q.
Proof.
  intros con.
  assert (Hr : radius_at (container_poly.base con) 0 0 1%Q).
  { exists [0; 0; 0; 1; 1 + 1 + 1; 0; 0; 2]%Q. vm_compute. auto. }
  assert (H0 : (0 <= 1)%Q) by (vm_compute; discriminate).
  assert (H1 : (1 <= container_poly.max_radius con)%Q) by (vm_compute; discriminate).
  assert (H2 : (0 < container_poly.max_radius con)%Q) by (vm_compute; reflexivity).
  split; [exact Hr|]. split; [exact H0|]. split; [exact H1|]. split; [exact H2|].
  destruct (r_mul_between_zero_and_one _ _ con 0 0 1%Q Hr H0 H1 H2)
    as (con' & Hinit & Hlo & Hhi & _).
  exists con'. auto.
Defined.

(** C10 with a strict lower bound fails for a source of radius 0: with
    [max_radius = 2] the hypotheses [0 <= r_s <= max_radius] and
    [max_radius > 0] hold and [r_init] sets [r_mul] to 0, which is not
    positive.  Exact arithmetic and binary64 agree on this. *)
Lemma r_mul_zero_for_radius_zero :
  (let con := two_spheres (D:=Q) 2%Q 0%Q in
   radius_at (container_poly.base con) 0 0 0%Q /\
   (0 <= 0)%Q /\ (0 <= container_poly.max_radius con)%Q /\
   (0 < container_poly.max_radius con)%Q /\
   exists con', container_poly.r_init con 0 0 = Some con' /\
     (container_poly.r_mul con' == 0)%Q /\
     ~ (0 < container_poly.r_mul con')%Q) /\
  (let con := two_spheres (D:=float) 2%float 0%float in
   container_poly.max_radius con = 2%float /\
   exists con', container_poly.r_init con 0 0 = Some con' /\
     container_poly.r_mul con' = 0%float /\
     (0 <? container_poly.r_mul con')%float = false).
Proof.
  split.
  - intros con. split.
    { exists [0; 0; 0; 0; 1 + 1 + 1; 0; 0; 2]%Q. vm_compute. auto. }
    split; [vm_compute; discriminate|].
    split; [vm_compute; discriminate|].
    split; [vm_compute; reflexivity|].
    eexists. split; [vm_compute; reflexivity|].
    split; [vm_compute; reflexivity|].
    vm_compute. discriminate.
  - intros con. split; [vm_compute; reflexivity|].
    eexists. split; [vm_compute; reflexivity|].
    split; vm_compute; reflexivity.
Qed.


(** Where binary64 leaves exact arithmetic.  A radius far below
    [max_radius] is lost in the rounding and gives [r_mul = 0] although it
    is positive; radii whose squares overflow give a NaN, which is neither
    [>= 0] nor [<= 1]. *)
Lemma r_mul_binary64_rounding_and_overflow :
  (let con := two_spheres (D:=float) 2%float 0x1p-60%float in
   exists con', container_poly.r_init con 0 0 = Some con' /\
     container_poly.r_mul con' = 0%float) /\
  (let con := two_spheres (D:=float) 0x1p600%float 0x1p600%float in
   exists con', container_poly.r_init con 0 0 = Some con' /\
     (0 <=? container_poly.r_mul con')%float = false /\
     (container_poly.r_mul con' <=? 1)%float = false).
Proof.
  split; intros con; eexists; (split; [vm_compute; reflexivity|]).
  - vm_compute. reflexivity.
  - split; vm_compute; reflexivity.
Qed.

(** ** Neighbouring boxes *)

Section RegionFacts.
Context {D : Type} `{DoubleOps D} {C : Type} `{VoronoiCell D C}.
Implicit Types (cb : container_base D C) (c : C) (vl : v_loop).

Lemma shiftl_1_double (n : Z) : Z.shiftl n 1 = 2 * n.
Proof. rewrite Z.shiftl_mul_pow2 by lia. change (2 ^ 1) with 2. lia. Qed.

Lemma region_axis (periodic : bool) (cu n e : Z) (a b q : D) :
  (if periodic then
     if cu + e <? n then (e + n, (- (b - a))%D)
     else if cu + e >=? Z.shiftl n 1 then (e - n, (b - a)%D)
     else (e, d_zero)
   else (e, q))
  = (wrapped periodic cu n e, displacement periodic cu n e a b q).
Proof.
  unfold wrapped, displacement. rewrite shiftl_1_double.
  destruct periodic; [|reflexivity].
  destruct (cu + e <? n); [reflexivity|].
  rewrite Z.geb_leb. destruct (2 * n <=? cu + e); reflexivity.
Qed.

Lemma region_index_axes cb ei ej ek qx qy qz :
  region_index cb ei ej ek qx qy qz
  = (cuijk cb + wrapped (xperiodic cb) (cui cb) (nx cb) ei
     + nx cb * (wrapped (yperiodic cb) (cuj cb) (ny cb) ej
                + ny cb * wrapped (zperiodic cb) (cuk cb) (nz cb) ek),
     displacement (xperiodic cb) (cui cb) (nx cb) ei (ax cb) (bx cb) qx,
     displacement (yperiodic cb) (cuj cb) (ny cb) ej (ay cb) (by_ cb) qy,
     displacement (zperiodic cb) (cuk cb) (nz cb) ek (az cb) (bz cb) qz).
Proof.
  unfold region_index.
  rewrite (region_axis (xperiodic cb)), (region_axis (yperiodic cb)),
    (region_axis (zperiodic cb)).
  reflexivity.
Qed.

(** A periodic axis wraps once: an offset that leaves the grid by less than
    one period comes back to the box congruent to it. *)
Lemma wrapped_periodic (cu n e : Z) :
  0 <= cu < n -> 0 <= cu + e < 3 * n ->
  cu + wrapped true cu n e - n = (cu + e - n) mod n /\
  0 <= cu + wrapped true cu n e - n < n.
Proof.
  intros Hcu He. unfold wrapped.
  destruct (Z.ltb_spec (cu + e) n); [|destruct (Z.leb_spec (2 * n) (cu + e))].
  - split; [|lia]. apply (Z.mod_unique_pos _ _ (-1)); lia.
  - split; [|lia]. apply (Z.mod_unique_pos _ _ 1); lia.
  - split; [|lia]. symmetry. apply Z.mod_small. lia.
Qed.

(** After a successful [initialize_voronoicell] at a loop position whose
    [ijk] is the index of box [(i,j,k)], the index returned by
    [region_index] is that of the box with coordinates [target]. *)
Lemma region_index_after_initialize cb c vl x y z r ei ej ek qx qy qz :
  stored_at cb (vl_ijk vl) (vl_q vl) x y z ->
  vl_ijk vl = vl_i vl + nx cb * (vl_j vl + ny cb * vl_k vl) ->
  initialize_voronoicell cb c vl = Some r ->
  in_ok r = true ->
  fst (fst (fst (region_index (in_con r) ei ej ek qx qy qz)))
  = target (xperiodic cb) (vl_i vl) (nx cb) ei
    + nx cb * (target (yperiodic cb) (vl_j vl) (ny cb) ej
               + ny cb * target (zperiodic cb) (vl_k vl) (nz cb) ek).
Proof.
  intros Hst Hijk Hinit Hok.
  rewrite (initialize_voronoicell_stored cb c vl x y z Hst) in Hinit.
  injection Hinit as <-. simpl in Hok. rewrite Hok.
  rewrite region_index_axes. simpl. rewrite Hijk.
  unfold target, start_index, wrapped.
  destruct (xperiodic cb), (yperiodic cb), (zperiodic cb); ring.
Qed.
End RegionFacts.

(** In exact arithmetic the displacement on a periodic axis is the number
    of periods by which the unwrapped box [cu+e-n] lies outside the grid,
    times the axis length. *)
Lemma displacement_exact (cu n e : Z) (a b q : Q) :
  0 < n -> 0 <= cu + e < 3 * n ->
  (displacement true cu n e a b q == inject_Z ((cu + e - n) / n) * (b - a))%Q.
Proof.
  intros Hn He. unfold displacement.
  destruct (Z.ltb_spec (cu + e) n); [|destruct (Z.leb_spec (2 * n) (cu + e))].
  - replace ((cu + e - n) / n) with (-1)
      by (apply (Z.div_unique_pos _ _ _ (cu + e)); lia).
    simpl. ring.
  - replace ((cu + e - n) / n) with 1
      by (apply (Z.div_unique_pos _ _ _ (cu + e - 2 * n)); lia).
    simpl. ring.
  - rewrite Z.div_small by lia. simpl. ring.
Qed.

(** A periodic axis wraps once and no more: the box named lies in the grid
    exactly when the argument leaves the grid by less than one period. *)
Lemma wrapped_in_grid_iff (cu n e : Z) :
  0 <= cu < n ->
  (0 <= cu + wrapped true cu n e - n < n <-> 0 <= cu + e < 3 * n).
Proof.
  intros Hcu. unfold wrapped.
  destruct (Z.ltb_spec (cu + e) n); [|destruct (Z.leb_spec (2 * n) (cu + e))]; lia.
Qed.

(** C6, as the code has it.  For all arguments, [region_index] returns
    [cuijk + ei' + nx*(ej' + ny*ek')] and the three displacements.  On a
    periodic axis of [n] boxes, the argument [e] of a source in box [cu] is
    wrapped once: [e' = e+n] with displacement [-(b-a)] when [cu+e < n],
    [e' = e-n] with displacement [b-a] when [cu+e >= 2n] (and [n > 0]), and
    [e' = e] with displacement 0 otherwise.  On a non-periodic axis nothing
    is clamped: the argument is used as it is, and the caller's
    displacement variable is left as it was.

    What the index and the displacement mean holds within reach only.  For
    a source box of the grid ([0 <= cu < n]), the box named on a periodic
    axis lies in the grid exactly when the argument leaves the grid by less
    than one period ([0 <= cu+e < 3n]), and it is then congruent to the
    unwrapped box [cu+e-n].  For such arguments and [n > 0] the
    displacement is, in exact arithmetic, the number of periods between the
    unwrapped box and the box named, times the axis length: added to a
    position stored in the box named, it gives the position of the image
    the source sees.  After a successful [initialize_voronoicell] at a loop
    position whose [ijk] is the index of [(i,j,k)], the index returned is
    [X + nx*(Y + ny*Z)] for the coordinates [target] of the three axes. *)
Theorem region_index_wraps_periodic_axes :
  (forall (D : Type) (HD : DoubleOps D) (C : Type) (HC : VoronoiCell D C)
          (cb : container_base D C) (ei ej ek : Z) (qx qy qz : D),
     region_index cb ei ej ek qx qy qz
     = (cuijk cb + wrapped (xperiodic cb) (cui cb) (nx cb) ei
        + nx cb * (wrapped (yperiodic cb) (cuj cb) (ny cb) ej
                   + ny cb * wrapped (zperiodic cb) (cuk cb) (nz cb) ek),
        displacement (xperiodic cb) (cui cb) (nx cb) ei (ax cb) (bx cb) qx,
        displacement (yperiodic cb) (cuj cb) (ny cb) ej (ay cb) (by_ cb) qy,
        displacement (zperiodic cb) (cuk cb) (nz cb) ek (az cb) (bz cb) qz) /\
     (forall (cu n e : Z) (a b q : D),
        wrapped false cu n e = e /\ displacement false cu n e a b q = q) /\
     (forall (cu n e : Z) (a b q : D),
        (cu + e < n ->
         wrapped true cu n e = e + n /\
         displacement true cu n e a b q = (- (b - a))%D) /\
        (2 * n <= cu + e -> 0 < n ->
         wrapped true cu n e = e - n /\
         displacement true cu n e a b q = (b - a)%D) /\
        (n <= cu + e < 2 * n ->
         wrapped true cu n e = e /\
         displacement true cu n e a b q = d_zero)) /\
     (forall cu n e : Z,
        0 <= cu < n -> 0 <= cu + e < 3 * n ->
        cu + wrapped true cu n e - n = (cu + e - n) mod n /\
        0 <= cu + wrapped true cu n e - n < n) /\
     (forall (cb0 : container_base D C) (c : C) (vl : v_loop) (x y z : D)
             (r : initialized D C),
        stored_at cb0 (vl_ijk vl) (vl_q vl) x y z ->
        vl_ijk vl = vl_i vl + nx cb0 * (vl_j vl + ny cb0 * vl_k vl) ->
        initialize_voronoicell cb0 c vl = Some r ->
        in_ok r = true ->
        fst (fst (fst (region_index (in_con r) ei ej ek qx qy qz)))
        = target (xperiodic cb0) (vl_i vl) (nx cb0) ei
          + nx cb0 * (target (yperiodic cb0) (vl_j vl) (ny cb0) ej
                      + ny cb0 * target (zperiodic cb0) (vl_k vl) (nz cb0) ek))) /\
  (forall (cu n e : Z) (a b q : Q),
     0 < n -> 0 <= cu + e < 3 * n ->
     (displacement true cu n e a b q == inject_Z ((cu + e - n) / n) * (b - a))%Q) /\
  (forall cu n e : Z,
     0 <= cu < n ->
     (0 <= cu + wrapped true cu n e - n < n <-> 0 <= cu + e < 3 * n)).
Proof.
  split; [|split; [apply displacement_exact|apply wrapped_in_grid_iff]].
  intros D HD C HC cb ei ej ek qx qy qz.
  split; [apply region_index_axes|].
  split; [intros; split; reflexivity|].
  split; [|split].
  - intros cu n e a b q. unfold wrapped, displacement. repeat split.
    + destruct (Z.ltb_spec (cu + e) n); [reflexivity|lia].
    + destruct (Z.ltb_spec (cu + e) n); [reflexivity|lia].
    + destruct (Z.ltb_spec (cu + e) n); [lia|].
      destruct (Z.leb_spec (2 * n) (cu + e)); [reflexivity|lia].
    + destruct (Z.ltb_spec (cu + e) n); [lia|].
      destruct (Z.leb_spec (2 * n) (cu + e)); [reflexivity|lia].
    + destruct (Z.ltb_spec (cu + e) n); [lia|].
      destruct (Z.leb_spec (2 * n) (cu + e)); [lia|reflexivity].
    + destruct (Z.ltb_spec (cu + e) n); [lia|].
      destruct (Z.leb_spec (2 * n) (cu + e)); [lia|reflexivity].
  - intros cu n e. apply wrapped_periodic.
  - intros cb0 c vl x y z r. apply region_index_after_initialize.
Qed.

(** C6 on the periodic cube in binary64.  The source is in box 1 of 3; the
    offset 5 stands for "two boxes up" and leaves the grid, so it wraps to
    box 0 with displacement [+1]; the other two axes are not periodic and
    their displacement variables keep the value 7 they had. *)
Lemma region_index_wraps_periodic_axes_witness :
  let cb := periodic_cube (D:=float) in
  stored_at cb 1 0 0.5%float 0.5%float 0.5%float /\
  vl_ijk at_particle = vl_i at_particle + nx cb * (vl_j at_particle + ny cb * vl_k at_particle) /\
  exists r, initialize_voronoicell cb (0, 0, 0, 0, 0, 0)%float at_particle = Some r /\
    in_ok r = true /\
    region_index (in_con r) 5 0 0 7%float 7%float 7%float = (0, 1%float, 7%float, 7%float) /\
    fst (fst (fst (region_index (in_con r) 5 0 0 7%float 7%float 7%float)))
    = target true 1 3 5 + 3 * (target false 0 1 0 + 1 * target false 0 1 0).
Proof.
  intros cb.
  assert (Hst : stored_at cb 1 0 0.5%float 0.5%float 0.5%float).
  { exists [0.5; 0.5; 0.5; 0; 0; 0]%float. vm_compute. auto. }
  assert (Hijk : vl_ijk at_particle
                 = vl_i at_particle + nx cb * (vl_j at_particle + ny cb * vl_k at_particle))
    by reflexivity.
  split; [exact Hst|]. split; [exact Hijk|].
  destruct (initialize_voronoicell cb (0, 0, 0, 0, 0, 0)%float at_particle)
    as [r|] eqn:Hinit; [|vm_compute in Hinit; discriminate].
  assert (Hok : in_ok r = true).
  { vm_compute in Hinit. injection Hinit as <-. reflexivity. }
  exists r. split; [reflexivity|]. split; [exact Hok|]. split.
  - vm_compute in Hinit. injection Hinit as <-. vm_compute. reflexivity.
  - exact (proj2 (proj2 (proj2 (proj2
             (proj1 region_index_wraps_periodic_axes float _ (box_cell float) _
                cb 5 0 0 7%float 7%float 7%float))))
             cb (0, 0, 0, 0, 0, 0)%float at_particle _ _ _ r Hst Hijk Hinit Hok).
Defined.

(** C6 fails as worded in two ways.  Nothing is clamped on a non-periodic
    axis: in the unit cube of 3×1×1 boxes, none periodic, the call with 7
    on the [x] axis returns the index 7, which is not one of the boxes 0, 1,
    2, and leaves the displacement variables at the value 5 they had.  And
    a periodic axis wraps once only: in the same cube made periodic in [x],
    with the source in box 1, the argument 9 stands for the box two periods
    up, which is box 1 again, displaced by 2; the call returns the index 4,
    which is not a box of the grid, and the displacement 1. *)
Lemma region_index_does_not_clamp :
  (exists r,
    initialize_voronoicell (one_particle (D:=float)) (0, 0, 0, 0, 0, 0)%float at_particle
    = Some r /\
    in_ok r = true /\
    xperiodic (in_con r) = false /\
    nx (in_con r) * ny (in_con r) * nz (in_con r) = 3 /\
    region_index (in_con r) 7 0 0 5%float 5%float 5%float
    = (7, 5%float, 5%float, 5%float) /\
    ~ (0 <= fst (fst (fst (region_index (in_con r) 7 0 0 5%float 5%float 5%float)))
       < nx (in_con r) * ny (in_con r) * nz (in_con r))) /\
  (exists r,
    initialize_voronoicell (periodic_cube (D:=float)) (0, 0, 0, 0, 0, 0)%float at_particle
    = Some r /\
    in_ok r = true /\
    xperiodic (in_con r) = true /\
    (cui (in_con r), nx (in_con r), ny (in_con r), nz (in_con r)) = (1, 3, 1, 1) /\
    (bx (in_con r) - ax (in_con r))%float = 1%float /\
    region_index (in_con r) 9 0 0 5%float 5%float 5%float
    = (4, 1%float, 5%float, 5%float) /\
    ~ (0 <= fst (fst (fst (region_index (in_con r) 9 0 0 5%float 5%float 5%float)))
       < nx (in_con r) * ny (in_con r) * nz (in_con r)) /\
    (cui (in_con r) + 9 - nx (in_con r)) mod nx (in_con r) = 1 /\
    (cui (in_con r) + 9 - nx (in_con r)) / nx (in_con r) = 2).
Proof.
  split.
  - eexists. split; [vm_compute; reflexivity|].
    split; [reflexivity|]. split; [reflexivity|]. split; [reflexivity|].
    split; [vm_compute; reflexivity|].
    vm_compute. intros [_ Hlt]. discriminate.
  - eexists. split; [vm_compute; reflexivity|].
    split; [reflexivity|]. split; [reflexivity|]. split; [reflexivity|].
    split; [vm_compute; reflexivity|].
    split; [vm_compute; reflexivity|].
    split; [vm_compute; intros [_ Hlt]; discriminate|].
    split; reflexivity.
Qed.


(** ** Insertion and clearing *)

Section StoreFacts.
Context {D : Type} `{DoubleOps D} {C : Type}.
Implicit Types (cb : container_base D C) (a : list Z).

Lemma box_Done {A : Type} (l : list A) (ijk : Z) (v : A) :
  box l ijk = Done v -> 0 <= ijk /\ l !! Z.to_nat ijk = Some v.
Proof.
  unfold box, at_index. destruct (decide (0 <= ijk)); simpl; [|discriminate].
  destruct (l !! Z.to_nat ijk); simpl; [|discriminate].
  intros [= ->]. auto.
Qed.

Lemma not_decreased_refl a : not_decreased a a.
Proof. intros i v Hi. exists v. split; [exact Hi|lia]. Qed.

Lemma not_decreased_insert a (i : nat) (m w : Z) :
  a !! i = Some m -> m <= w -> not_decreased a (<[i := w]> a).
Proof.
  intros Hi Hle j v Hj. destruct (decide (i = j)) as [<-|Hne].
  - exists w. split.
    + apply list_lookup_insert_eq. eapply lookup_lt_Some, Hi.
    + rewrite Hi in Hj. injection Hj as <-. exact Hle.
  - exists v. split; [|lia]. rewrite list_lookup_insert_ne by exact Hne. exact Hj.
Qed.

Lemma put_axis_cases (periodic : bool) (a b x : D) :
  (exists v, container_base.put_axis periodic a b x = Done v) \/
  container_base.put_axis periodic a b x = DomainError.
Proof.
  unfold container_base.put_axis.
  destruct periodic; [eauto|]. destruct (container_base.in_range a b x); eauto.
Qed.

Lemma put_axis_rejects (a b x : D) :
  container_base.in_range a b x = false ->
  container_base.put_axis false a b x = DomainError.
Proof. intros Hout. unfold container_base.put_axis. rewrite Hout. reflexivity. Qed.

(** A coordinate outside the range of a non-periodic axis stops the
    insertion before anything is looked up or stored. *)
Lemma put_remap_domain_error cb (x y z : D) :
  (xperiodic cb = false /\ container_base.in_range (ax cb) (bx cb) x = false) \/
  (yperiodic cb = false /\ container_base.in_range (ay cb) (by_ cb) y = false) \/
  (zperiodic cb = false /\ container_base.in_range (az cb) (bz cb) z = false) ->
  container_base.put_remap cb x y z = DomainError.
Proof.
  intros Hout. unfold container_base.put_remap.
  destruct (put_axis_cases (xperiodic cb) (ax cb) (bx cb) x) as [[x' Ex]|Ex];
    rewrite Ex; simpl; [|reflexivity].
  destruct (put_axis_cases (yperiodic cb) (ay cb) (by_ cb) y) as [[y' Ey]|Ey];
    rewrite Ey; simpl; [|reflexivity].
  destruct (put_axis_cases (zperiodic cb) (az cb) (bz cb) z) as [[z' Ez]|Ez];
    rewrite Ez; simpl; [|reflexivity].
  destruct Hout as [[Hp Ho]|[[Hp Ho]|[Hp Ho]]]; rewrite Hp in *.
  - rewrite (put_axis_rejects _ _ _ Ho) in Ex. discriminate.
  - rewrite (put_axis_rejects _ _ _ Ho) in Ey. discriminate.
  - rewrite (put_axis_rejects _ _ _ Ho) in Ez. discriminate.
Qed.

Lemma add_particle_memory_grows (mpm : Z) cb (i : Z) cb' :
  capacities_ok cb ->
  container_base.add_particle_memory mpm cb i = Done cb' ->
  co cb' = co cb /\ not_decreased (mem cb) (mem cb') /\ capacities_ok cb'.
Proof.
  intros Hcap Hadd. unfold container_base.add_particle_memory in Hadd.
  bind_inv Hadd. rename a into m.
  destruct (box_Done _ _ _ E) as [Hi Hm].
  destruct (2 * m >? mpm); [discriminate|]. injection Hadd as <-. simpl.
  assert (Hm0 : 0 <= m).
  { unfold capacities_ok in Hcap. rewrite Forall_lookup in Hcap. eapply Hcap, Hm. }
  split; [reflexivity|]. split.
  - apply (not_decreased_insert _ _ m); [exact Hm|lia].
  - unfold capacities_ok. simpl. apply Forall_insert; [exact Hcap|lia].
Qed.

Lemma put_locate_block_grows (mpm : Z) cb (x y z : D) cb' ijk x' y' z' :
  capacities_ok cb ->
  container_base.put_locate_block mpm cb x y z = Done (cb', ijk, x', y', z') ->
  co cb' = co cb /\ not_decreased (mem cb) (mem cb') /\ capacities_ok cb'.
Proof.
  intros Hcap Hloc. unfold container_base.put_locate_block in Hloc.
  bind_inv Hloc. destruct a as [[[ijk0 x0] y0] z0]. simpl in Hloc.
  bind_inv Hloc. rename a into n. bind_inv Hloc. rename a into m.
  bind_inv Hloc. injection Hloc as <- <- <- <- <-.
  destruct (n =? m).
  - eapply add_particle_memory_grows; eassumption.
  - injection E2 as <-. split; [reflexivity|]. split; [apply not_decreased_refl|exact Hcap].
Qed.

Lemma append_grows cb (ijk n : Z) (data : list D) cb' :
  container_base.append cb ijk n data = Done cb' ->
  mem cb' = mem cb /\ not_decreased (co cb) (co cb').
Proof.
  intros Happ. unfold container_base.append in Happ.
  bind_inv Happ. rename a into s.
  destruct (box_Done _ _ _ E) as [Hi Hs].
  injection Happ as <-. simpl. split; [reflexivity|].
  apply (not_decreased_insert _ _ s); [exact Hs|lia].
Qed.

Lemma put_grows (mpm : Z) cb (n : Z) (x y z : D) cb' :
  capacities_ok cb ->
  container.put mpm cb n x y z = Done cb' ->
  not_decreased (co cb) (co cb') /\ not_decreased (mem cb) (mem cb') /\
  capacities_ok cb'.
Proof.
  intros Hcap Hput. unfold container.put in Hput.
  bind_inv Hput. destruct a as [[[[cb1 ijk] x'] y'] z']. simpl in Hput.
  destruct (put_locate_block_grows _ _ _ _ _ _ _ _ _ _ Hcap E) as (Hco & Hmem & Hcap1).
  destruct (append_grows _ _ _ _ _ Hput) as [Hmem' Hco'].
  rewrite <- Hco. rewrite Hmem'. unfold capacities_ok in *. rewrite Hmem'. auto.
Qed.

Lemma poly_put_grows `{VoronoiCell D C} (mpm : Z) (con con' : container_poly.t D C)
    (n : Z) (x y z r : D) :
  capacities_ok (container_poly.base con) ->
  container_poly.put mpm con n x y z r = Done con' ->
  not_decreased (co (container_poly.base con)) (co (container_poly.base con')) /\
  not_decreased (mem (container_poly.base con)) (mem (container_poly.base con')) /\
  capacities_ok (container_poly.base con').
Proof.
  intros Hcap Hput. unfold container_poly.put in Hput.
  bind_inv Hput. destruct a as [[[[cb1 ijk] x'] y'] z']. simpl in Hput.
  bind_inv Hput. injection Hput as <-. simpl.
  destruct (put_locate_block_grows _ _ _ _ _ _ _ _ _ _ Hcap E) as (Hco & Hmem & Hcap1).
  destruct (append_grows _ _ _ _ _ E0) as [Hmem' Hco'].
  rewrite <- Hco. rewrite Hmem'. unfold capacities_ok in *. rewrite Hmem'. auto.
Qed.

Lemma clear_counts cb (ijk : nat) (v : Z) :
  co (container_base.clear cb) !! ijk = Some v -> v = 0.
Proof.
  unfold container_base.clear. simpl. rewrite list_lookup_fmap.
  destruct (co cb !! ijk); simpl; congruence.
Qed.
End StoreFacts.

(** The model of the constructor and of [put] builds the sample containers:
    the empty cube, and from it the cube with particle 7 in box 1, in
    binary64 and in exact arithmetic. *)
Lemma new_and_put_build_the_samples :
  container_base.new 0%float 1%float 0%float 1%float 0%float 1%float 3 1 1
    false false false 2 3 = unit_cube (D:=float) /\
  container.put 16 (unit_cube (D:=float)) 7 0.5%float 0.5%float 0.5%float
  = Done one_particle /\
  container.put 16 (one_particle (D:=float)) 8 0.5%float 0.5%float 0.5%float
  = Done two_particles /\
  container.put 16 (unit_cube (D:=Q)) 7 (1 # 2)%Q (1 # 2)%Q (1 # 2)%Q
  = Done one_particle.
Proof. repeat split; vm_compute; reflexivity. Qed.

(** C7. An insertion whose coordinate on some non-periodic axis fails the
    range test [a <= . <= b] ends in the domain error, for [container] and
    for [container_poly]: no container comes back, so nothing is stored.
    In exact arithmetic failing the test is lying outside [[a,b]].  The
    point (1.1, 0.5, 0.5) is rejected by the non-periodic unit cube,
    whatever its grid, in binary64 and in exact arithmetic. *)
Theorem put_outside_domain_error :
  (forall (D : Type) (HD : DoubleOps D) (C : Type) (HC : VoronoiCell D C)
          (mpm : Z) (cb : container_base D C) (con : container_poly.t D C)
          (n : Z) (x y z r : D),
     container_poly.base con = cb ->
     (xperiodic cb = false /\ container_base.in_range (ax cb) (bx cb) x = false) \/
     (yperiodic cb = false /\ container_base.in_range (ay cb) (by_ cb) y = false) \/
     (zperiodic cb = false /\ container_base.in_range (az cb) (bz cb) z = false) ->
     container.put mpm cb n x y z = DomainError /\
     container_poly.put mpm con n x y z r = DomainError) /\
  (forall a b x : Q,
     container_base.in_range a b x = false <-> (x < a \/ b < x)%Q) /\
  (forall nx_ ny_ nz_ init_mem mpm n : Z,
     container.put mpm
       (container_base.new (C:=box_cell float) 0%float 1%float 0%float 1%float
          0%float 1%float nx_ ny_ nz_ false false false init_mem 3)
       n f_1_1 0.5%float 0.5%float
     = DomainError /\
     container.put mpm
       (container_base.new (C:=box_cell Q) 0%Q 1%Q 0%Q 1%Q 0%Q 1%Q
          nx_ ny_ nz_ false false false init_mem 3)
       n (11 # 10)%Q (1 # 2)%Q (1 # 2)%Q
     = DomainError).
Proof.
  assert (Hgen : forall (D : Type) (HD : DoubleOps D) (C : Type)
            (mpm : Z) (cb : container_base D C) (n : Z) (x y z : D),
            (xperiodic cb = false /\ container_base.in_range (ax cb) (bx cb) x = false) \/
            (yperiodic cb = false /\ container_base.in_range (ay cb) (by_ cb) y = false) \/
            (zperiodic cb = false /\ container_base.in_range (az cb) (bz cb) z = false) ->
            container.put mpm cb n x y z = DomainError).
  { intros D HD C mpm cb n x y z Hout.
    unfold container.put, container_base.put_locate_block.
    rewrite (put_remap_domain_error cb x y z Hout). reflexivity. }
  split; [|split].
  - intros D HD C HC mpm cb con n x y z r Hcon Hout. split; [apply Hgen, Hout|].
    unfold container_poly.put, container_base.put_locate_block.
    rewrite Hcon, (put_remap_domain_error cb x y z Hout). reflexivity.
  - intros a b x. rewrite <- not_true_iff_false, in_range_exact. split.
    + intros Hn. destruct (Qlt_le_dec x a) as [Hlt|Hle]; [auto|].
      destruct (Qlt_le_dec b x) as [Hlt'|Hle']; [auto|]. tauto.
    + intros [Hlt|Hlt] [Hax Hxb]; lra.
  - intros nx_ ny_ nz_ init_mem mpm n. split; apply Hgen; left; split; reflexivity.
Qed.

(** C7 on the unit cube of 3×1×1 boxes in binary64: 1.1 fails the range
    test of the [x] axis. *)
Lemma put_outside_domain_error_witness :
  let cb := unit_cube (D:=float) in
  let con := container_poly.Make cb 0%float 0%float 0%float in
  ((xperiodic cb = false /\
    container_base.in_range (ax cb) (bx cb) f_1_1 = false) \/
   (yperiodic cb = false /\
    container_base.in_range (ay cb) (by_ cb) 0.5%float = false) \/
   (zperiodic cb = false /\
    container_base.in_range (az cb) (bz cb) 0.5%float = false)) /\
  container.put 16 cb 7 f_1_1 0.5%float 0.5%float = DomainError /\
  container_poly.put 16 con 7 f_1_1 0.5%float 0.5%float 1%float
  = DomainError.
Proof.
  intros cb con.
  assert (Hout :
    (xperiodic cb = false /\
     container_base.in_range (ax cb) (bx cb) f_1_1 = false) \/
    (yperiodic cb = false /\
     container_base.in_range (ay cb) (by_ cb) 0.5%float = false) \/
    (zperiodic cb = false /\
     container_base.in_range (az cb) (bz cb) 0.5%float = false))
    by (left; split; reflexivity).
  split; [exact Hout|].
  exact (proj1 put_outside_domain_error float _ (box_cell float) _ 16 cb con 7
           _ _ _ 1%float eq_refl Hout).
Defined.

(** C8. [clear] sets every count to 0 and changes nothing else: the
    capacities, the [id] and [p] storage, the walls and the geometry are as
    before.  An insertion that succeeds, into a [container] or a
    [container_poly] whose capacities are not negative, leaves no count and
    no capacity smaller than it was, and the capacities stay non-negative.
    A new container with a non-negative [init_mem] is empty and has such
    capacities, and [clear] keeps them. *)
Theorem clear_resets_counts_put_grows :
  forall (D : Type) (HD : DoubleOps D) (C : Type) (HC : VoronoiCell D C)
         (mpm : Z) (cb : container_base D C),
    (length (co (container.clear cb)) = length (co cb) /\
     (forall (ijk : nat) (v : Z), co (container.clear cb) !! ijk = Some v -> v = 0) /\
     mem (container.clear cb) = mem cb /\
     id (container.clear cb) = id cb /\
     p (container.clear cb) = p cb /\
     walls (container.clear cb) = walls cb /\
     same_geometry cb (container.clear cb)) /\
    (capacities_ok cb ->
     capacities_ok (container.clear cb) /\
     (forall (n : Z) (x y z : D) (cb' : container_base D C),
        container.put mpm cb n x y z = Done cb' ->
        not_decreased (co cb) (co cb') /\ not_decreased (mem cb) (mem cb') /\
        capacities_ok cb') /\
     (forall (con con' : container_poly.t D C) (n : Z) (x y z r : D),
        container_poly.base con = cb ->
        container_poly.put mpm con n x y z r = Done con' ->
        not_decreased (co cb) (co (container_poly.base con')) /\
        not_decreased (mem cb) (mem (container_poly.base con')) /\
        capacities_ok (container_poly.base con'))) /\
    (forall (a1 b1 a2 b2 a3 b3 : D) (nx_ ny_ nz_ : Z) (px py pz : bool)
            (init_mem ps_ : Z),
       0 <= init_mem ->
       let cb0 := container_base.new (C:=C) a1 b1 a2 b2 a3 b3 nx_ ny_ nz_
                    px py pz init_mem ps_ in
       capacities_ok cb0 /\
       forall (ijk : nat) (v : Z), co cb0 !! ijk = Some v -> v = 0).
Proof.
  intros D HD C HC mpm cb. split; [|split].
  - unfold container.clear. repeat split.
    + unfold container_base.clear. simpl. apply length_fmap.
    + apply clear_counts.
  - intros Hcap. split; [exact Hcap|]. split.
    + intros n x y z cb'. apply put_grows, Hcap.
    + intros con con' n x y z r <-. apply poly_put_grows. exact Hcap.
  - intros a1 b1 a2 b2 a3 b3 nx_ ny_ nz_ px py pz init_mem ps_ Hmem cb0. split.
    + unfold capacities_ok, cb0, container_base.new. simpl.
      apply Forall_replicate. exact Hmem.
    + intros ijk v. unfold cb0, container_base.new. simpl.
      intros Hv. apply lookup_replicate in Hv. tauto.
Qed.

(** C8 on [two_particles] in binary64: box 1 holds 2 particles and has
    room for 2; a third insertion doubles its capacity to 4 and raises its
    count to 3, the other boxes keeping theirs. *)
Lemma clear_resets_counts_put_grows_witness :
  let cb := two_particles (D:=float) in
  capacities_ok cb /\
  co cb = [0; 2; 0] /\ mem cb = [2; 2; 2] /\
  exists cb', container.put 16 cb 9 0.5%float 0.5%float 0.5%float = Done cb' /\
    co cb' = [0; 3; 0] /\ mem cb' = [2; 4; 2] /\
    not_decreased (co cb) (co cb') /\ not_decreased (mem cb) (mem cb') /\
    capacities_ok cb'.
Proof.
  intros cb.
  assert (Hcap : capacities_ok cb).
  { unfold capacities_ok. vm_compute. repeat constructor; discriminate. }
  split; [exact Hcap|]. split; [reflexivity|]. split; [reflexivity|].
  destruct (container.put 16 cb 9 0.5%float 0.5%float 0.5%float) as [cb'| | |] eqn:Hput;
    try (vm_compute in Hput; discriminate).
  exists cb'. split; [reflexivity|].
  split; [vm_compute in Hput; injection Hput as <-; reflexivity|].
  split; [vm_compute in Hput; injection Hput as <-; reflexivity|].
  exact (proj1 (proj2 (proj1 (proj2
           (clear_resets_counts_put_grows float _ (box_cell float) _ 16 cb)) Hcap))
           9 0.5%float 0.5%float 0.5%float cb' Hput).
Defined.


(** * Further properties of the code *)

(** ** Walls added one after the other *)

Section MoreWallFacts.
Context {D C : Type}.
Implicit Types (ws pre post : wall_list D C) (w : wall D C) (c : C) (x y z : D).

Lemma point_inside_walls_app pre post x y z :
  point_inside_walls (pre ++ post) x y z
  = point_inside_walls pre x y z && point_inside_walls post x y z.
Proof.
  induction pre as [|w pre IH]; simpl; [reflexivity|].
  destruct (point_inside w x y z); simpl; [exact IH|reflexivity].
Qed.

Lemma apply_walls_app pre post c x y z :
  apply_walls (pre ++ post) c x y z
  = if snd (apply_walls pre c x y z)
    then apply_walls post (fst (apply_walls pre c x y z)) x y z
    else (fst (apply_walls pre c x y z), false).
Proof.
  revert c. induction pre as [|w pre IH]; intros c; simpl; [reflexivity|].
  destruct (cut_cell w c x y z) as [c' ok]. destruct ok; simpl; [apply IH|reflexivity].
Qed.

Lemma apply_walls_single w c x y z :
  apply_walls [w] c x y z = cut_cell w c x y z.
Proof. simpl. destruct (cut_cell w c x y z) as [c' ok]. destruct ok; reflexivity. Qed.
End MoreWallFacts.

(** X1. A point is inside a wall list extended by [add_wall] exactly when
    it is inside the list as it was and inside the new wall; more generally
    the test on two lists put one behind the other is the conjunction of
    the tests on each. *)
Theorem point_inside_walls_after_add_wall :
  forall (D C : Type) (ws ws' : wall_list D C) (w : wall D C) (x y z : D),
    point_inside_walls (add_wall w ws) x y z
    = point_inside_walls ws x y z && point_inside w x y z /\
    point_inside_walls (ws ++ ws') x y z
    = point_inside_walls ws x y z && point_inside_walls ws' x y z.
Proof.
  intros D C ws ws' w x y z. split; [|apply point_inside_walls_app].
  unfold add_wall. rewrite point_inside_walls_app. simpl.
  destruct (point_inside w x y z); reflexivity.
Qed.

(** X2. The answer of [point_inside_walls] does not depend on the order in
    which the walls were added: two lists holding the same walls, in any
    order, give the same answer at every point. *)
Theorem point_inside_walls_any_order :
  forall (D C : Type) (ws ws' : wall_list D C) (x y z : D),
    ws ≡ₚ ws' ->
    point_inside_walls ws x y z = point_inside_walls ws' x y z.
Proof.
  intros D C ws ws' x y z Hperm.
  induction Hperm as [|w l l' _ IH|w1 w2 l|l1 l2 l3 _ IH1 _ IH2]; simpl.
  - reflexivity.
  - rewrite IH. reflexivity.
  - destruct (point_inside w1 x y z), (point_inside w2 x y z); reflexivity.
  - congruence.
Qed.

(** X2 on the three sample walls and the same walls added in the opposite
    order, in binary64, at the point (0.5,0.5,0.5). *)
Lemma point_inside_walls_any_order_witness :
  walls_1_2_3 (D:=float) ≡ₚ reverse walls_1_2_3 /\
  point_inside_walls (walls_1_2_3 (D:=float)) 0.5%float 0.5%float 0.5%float
  = point_inside_walls (reverse walls_1_2_3) 0.5%float 0.5%float 0.5%float.
Proof.
  assert (Hp : walls_1_2_3 (D:=float) ≡ₚ reverse walls_1_2_3)
    by (symmetry; apply reverse_Permutation).
  split; [exact Hp|].
  exact (point_inside_walls_any_order float (box_cell float) _ _
           0.5%float 0.5%float 0.5%float Hp).
Defined.

(** X3. Cutting by a wall list extended by [add_wall] is cutting by the
    list as it was and then, if a cell is left, by the new wall: the new
    wall sees the cell the earlier walls produced and its answer is the
    answer of the whole; if an earlier wall left nothing the new wall
    changes nothing.  The same holds for two lists put one behind the
    other. *)
Theorem apply_walls_after_add_wall :
  forall (D C : Type) (ws ws' : wall_list D C) (w : wall D C) (c : C) (x y z : D),
    apply_walls (add_wall w ws) c x y z
    = (if snd (apply_walls ws c x y z)
       then cut_cell w (fst (apply_walls ws c x y z)) x y z
       else (fst (apply_walls ws c x y z), false)) /\
    apply_walls (ws ++ ws') c x y z
    = (if snd (apply_walls ws c x y z)
       then apply_walls ws' (fst (apply_walls ws c x y z)) x y z
       else (fst (apply_walls ws c x y z), false)).
Proof.
  intros D C ws ws' w c x y z. split; [|apply apply_walls_app].
  unfold add_wall. rewrite apply_walls_app, apply_walls_single. reflexivity.
Qed.

(** ** One cell after the other *)

Section MoreInitFacts.
Context {D : Type} `{DoubleOps D} {C : Type} `{VoronoiCell D C}.
Implicit Types (cb : container_base D C) (c : C) (vl : v_loop) (r : initialized D C).

(** [initialize_voronoicell] returns only when the three doubles of the
    slot are in the array. *)
Lemma initialize_voronoicell_Some_stored cb c vl r :
  initialize_voronoicell cb c vl = Some r ->
  exists x y z, stored_at cb (vl_ijk vl) (vl_q vl) x y z.
Proof.
  unfold initialize_voronoicell, stored_at.
  destruct (at_index (p cb) (vl_ijk vl)) as [pp|] eqn:Epp; simpl; [|discriminate].
  destruct (at_index pp (ps cb * vl_q vl)) as [x|] eqn:Ex; simpl; [|discriminate].
  destruct (at_index pp (ps cb * vl_q vl + 1)) as [y|] eqn:Ey; simpl; [|discriminate].
  destruct (at_index pp (ps cb * vl_q vl + 2)) as [z|] eqn:Ez; simpl; [|discriminate].
  intros _. exists x, y, z, pp. auto.
Qed.

Lemma stored_at_same_particles cb cb' ijk q x y z :
  p cb' = p cb -> ps cb' = ps cb ->
  stored_at cb ijk q x y z -> stored_at cb' ijk q x y z.
Proof. unfold stored_at. intros -> ->. auto. Qed.

Lemma initialize_voronoicell_None cb c vl :
  initialize_voronoicell cb c vl = None ->
  forall cb' c', p cb' = p cb -> ps cb' = ps cb ->
    initialize_voronoicell cb' c' vl = None.
Proof.
  intros Hnone cb' c' Hp Hps.
  destruct (initialize_voronoicell cb' c' vl) as [r|] eqn:E; [|reflexivity].
  destruct (initialize_voronoicell_Some_stored _ _ _ _ E) as (x & y & z & Hst).
  apply (stored_at_same_particles cb' cb) in Hst; [|congruence|congruence].
  rewrite (initialize_voronoicell_stored cb c vl x y z Hst) in Hnone. discriminate.
Qed.
End MoreInitFacts.

(** X4. [initialize_voronoicell] writes the container's scratch fields and
    nothing else: geometry, particles and walls are as before.  The current
    box becomes the loop's [(i,j,k)]; the three reference arguments are the
    grid size on a periodic axis and the box index otherwise; [cuijk] is set
    from them when a cell is left, and keeps the value it had when the walls
    left none.  For a loop position whose [ijk] is the index of [(i,j,k)],
    success leaves the scratch fields naming that box. *)
Theorem initialize_voronoicell_writes_scratch_only :
  forall (D : Type) (HD : DoubleOps D) (C : Type) (HC : VoronoiCell D C)
         (cb : container_base D C) (c : C) (vl : v_loop) (r : initialized D C),
    initialize_voronoicell cb c vl = Some r ->
    same_geometry cb (in_con r) /\ same_contents cb (in_con r) /\
    cui (in_con r) = vl_i vl /\ cuj (in_con r) = vl_j vl /\ cuk (in_con r) = vl_k vl /\
    in_sti r = start_index (xperiodic cb) (nx cb) (vl_i vl) /\
    in_stj r = start_index (yperiodic cb) (ny cb) (vl_j vl) /\
    in_stk r = start_index (zperiodic cb) (nz cb) (vl_k vl) /\
    cuijk (in_con r)
    = (if in_ok r
       then vl_ijk vl - in_sti r - nx cb * (in_stj r + ny cb * in_stk r)
       else cuijk cb) /\
    (in_ok r = true ->
     vl_ijk vl = vl_i vl + nx cb * (vl_j vl + ny cb * vl_k vl) ->
     current_box (in_con r) (vl_i vl) (vl_j vl) (vl_k vl)).
Proof.
  intros D HD C HC cb c vl r Hinit.
  destruct (initialize_voronoicell_Some_stored _ _ _ _ Hinit) as (x & y & z & Hst).
  rewrite (initialize_voronoicell_stored cb c vl x y z Hst) in Hinit.
  injection Hinit as <-. simpl.
  destruct (snd (apply_walls (walls cb) (initial_cell cb c x y z) x y z)); simpl.
  - split; [repeat split|]. split; [repeat split|].
    do 7 (split; [reflexivity|]).
    intros _ Hijk. unfold current_box, start_index. simpl.
    split; [reflexivity|]. split; [reflexivity|]. split; [reflexivity|]. lia.
  - split; [repeat split|]. split; [repeat split|].
    do 7 (split; [reflexivity|]). discriminate.
Qed.

(** X4 on [three_walls] in binary64: the walls leave no cell, the current
    box is set to (1,0,0), and [cuijk] keeps its value 0. *)
Lemma initialize_voronoicell_writes_scratch_only_witness :
  exists r,
    initialize_voronoicell (three_walls (D:=float)) (0, 0, 0, 0, 0, 0)%float at_particle
    = Some r /\
    in_ok r = false /\
    p (in_con r) = p (three_walls (D:=float)) /\
    cui (in_con r) = 1 /\
    cuijk (in_con r) = cuijk (three_walls (D:=float)).
Proof.
  destruct (initialize_voronoicell (three_walls (D:=float)) (0, 0, 0, 0, 0, 0)%float
              at_particle) as [r|] eqn:Hinit; [|vm_compute in Hinit; discriminate].
  assert (Hko : in_ok r = false).
  { vm_compute in Hinit. injection Hinit as <-. reflexivity. }
  destruct (initialize_voronoicell_writes_scratch_only float _ _ _ _ _ _ r Hinit)
    as (_ & (_ & Hp & _) & Hi & _ & _ & _ & _ & _ & Hijk & _).
  exists r. rewrite Hko in Hijk. auto.
Defined.

(** X5. What [initialize_voronoicell] does for a particle does not depend
    on the cell computed before: called on the container a previous call
    left behind, it fails or succeeds as on the container before that call,
    with the same cell, reference arguments and answer, and when a cell is
    left with the same container. *)
Theorem initialize_voronoicell_forgets_previous_cell :
  forall (D : Type) (HD : DoubleOps D) (C : Type) (HC : VoronoiCell D C)
         (cb : container_base D C) (c1 c2 : C) (vl1 vl2 : v_loop)
         (r1 : initialized D C),
    initialize_voronoicell cb c1 vl1 = Some r1 ->
    (fun r => (in_cell r, in_sti r, in_stj r, in_stk r, in_ok r))
      <$> initialize_voronoicell (in_con r1) c2 vl2
    = (fun r => (in_cell r, in_sti r, in_stj r, in_stk r, in_ok r))
        <$> initialize_voronoicell cb c2 vl2 /\
    (forall r2, initialize_voronoicell cb c2 vl2 = Some r2 -> in_ok r2 = true ->
       initialize_voronoicell (in_con r1) c2 vl2 = Some r2).
Proof.
  intros D HD C HC cb c1 c2 vl1 vl2 r1 Hinit1.
  destruct (initialize_voronoicell_Some_stored _ _ _ _ Hinit1) as (x1 & y1 & z1 & Hst1).
  rewrite (initialize_voronoicell_stored cb c1 vl1 x1 y1 z1 Hst1) in Hinit1.
  injection Hinit1 as <-. simpl.
  set (k1 := snd (apply_walls (walls cb) (initial_cell cb c1 x1 y1 z1) x1 y1 z1)).
  set (cb1 := if k1 then _ else _).
  assert (Hp : p cb1 = p cb) by (unfold cb1; destruct k1; reflexivity).
  assert (Hps : ps cb1 = ps cb) by (unfold cb1; destruct k1; reflexivity).
  destruct (initialize_voronoicell cb c2 vl2) as [r2|] eqn:Hinit2.
  - destruct (initialize_voronoicell_Some_stored _ _ _ _ Hinit2) as (x & y & z & Hst).
    rewrite (initialize_voronoicell_stored cb c2 vl2 x y z Hst) in Hinit2.
    injection Hinit2 as <-.
    assert (Hst' : stored_at cb1 (vl_ijk vl2) (vl_q vl2) x y z)
      by (apply (stored_at_same_particles cb); assumption).
    rewrite (initialize_voronoicell_stored cb1 c2 vl2 x y z Hst').
    assert (Hcell : initial_cell cb1 c2 x y z = initial_cell cb c2 x y z)
      by (unfold cb1; destruct k1; reflexivity).
    assert (Hw : walls cb1 = walls cb) by (unfold cb1; destruct k1; reflexivity).
    rewrite Hcell, Hw. simpl. split.
    + unfold cb1. destruct k1; reflexivity.
    + intros r2 [= <-]. simpl. intros Hok. rewrite Hok.
      unfold cb1. destruct k1; reflexivity.
  - rewrite (initialize_voronoicell_None cb c2 vl2 Hinit2 cb1 c2 Hp Hps).
    split; [reflexivity|]. discriminate.
Qed.

(** X5 on [two_particles] in binary64: the cell of the particle in slot 1
    comes out the same after the cell of the particle in slot 0 was set
    up. *)
Lemma initialize_voronoicell_forgets_previous_cell_witness :
  let cb := two_particles (D:=float) in
  let c := (0, 0, 0, 0, 0, 0)%float in
  exists r1, initialize_voronoicell cb c at_particle = Some r1 /\
    (fun r => (in_cell r, in_sti r, in_stj r, in_stk r, in_ok r))
      <$> initialize_voronoicell (in_con r1) c (VLoop 1 1 1 0 0)
    = Some ((-0.5, 0.5, -0.5, 0.5, -0.5, 0.5)%float, 1, 0, 0, true).
Proof.
  intros cb c.
  destruct (initialize_voronoicell cb c at_particle) as [r1|] eqn:Hinit;
    [|vm_compute in Hinit; discriminate].
  exists r1. split; [reflexivity|].
  rewrite (proj1 (initialize_voronoicell_forgets_previous_cell float _ _ _
                    cb c c at_particle (VLoop 1 1 1 0 0) r1 Hinit)).
  vm_compute. reflexivity.
Defined.

(** ** Boxes and their neighbours *)

Section MoreRegionFacts.
Context {D : Type} `{DoubleOps D} {C : Type}.
Implicit Types (cb : container_base D C).

(** With the scratch fields naming box [(i,j,k)], [region_index] returns
    the index of the box whose coordinates are the [target]s. *)
Lemma region_index_at_current_box cb (i j k ei ej ek : Z) (qx qy qz : D) :
  current_box cb i j k ->
  fst (fst (fst (region_index cb ei ej ek qx qy qz)))
  = target (xperiodic cb) i (nx cb) ei
    + nx cb * (target (yperiodic cb) j (ny cb) ej
               + ny cb * target (zperiodic cb) k (nz cb) ek).
Proof.
  intros (Hi & Hj & Hk & Hijk). rewrite region_index_axes. simpl.
  rewrite Hijk, Hi, Hj, Hk. unfold target, start_index, wrapped.
  destruct (xperiodic cb), (yperiodic cb), (zperiodic cb); ring.
Qed.

Lemma target_in_grid (periodic : bool) (cu n e : Z) :
  0 <= cu < n -> in_reach periodic cu n e ->
  0 <= target periodic cu n e < n.
Proof.
  unfold in_reach, target. destruct periodic; [|auto].
  intros Hcu He. apply wrapped_periodic; assumption.
Qed.

(** The way back leads to the source box and is within reach. *)
Lemma target_way_back (periodic : bool) (cu n e : Z) :
  0 <= cu < n -> in_reach periodic cu n e ->
  target periodic (target periodic cu n e) n (way_back periodic cu n e) = cu /\
  in_reach periodic (target periodic cu n e) n (way_back periodic cu n e).
Proof.
  unfold in_reach, target, way_back, wrapped. destruct periodic; [|auto].
  intros Hcu He.
  destruct (Z.ltb_spec (cu + e) n); [|destruct (Z.leb_spec (2 * n) (cu + e))].
  - destruct (Z.ltb_spec (cu + (e + n) - n + (2 * n - e)) n); [lia|].
    destruct (Z.leb_spec (2 * n) (cu + (e + n) - n + (2 * n - e))); lia.
  - destruct (Z.ltb_spec (cu + (e - n) - n + (2 * n - e)) n); lia.
  - destruct (Z.ltb_spec (cu + e - n + (2 * n - e)) n); [lia|].
    destruct (Z.leb_spec (2 * n) (cu + e - n + (2 * n - e))); lia.
Qed.
End MoreRegionFacts.

(** On the way back the displacement is the opposite one. *)
Lemma displacement_way_back (cu n e : Z) (a b q q' : Q) :
  0 <= cu < n -> 0 <= cu + e < 3 * n ->
  (displacement true (target true cu n e) n (way_back true cu n e) a b q'
   == - displacement true cu n e a b q)%Q.
Proof.
  intros Hcu He. unfold displacement, target, way_back, wrapped.
  destruct (Z.ltb_spec (cu + e) n); [|destruct (Z.leb_spec (2 * n) (cu + e))].
  - destruct (Z.ltb_spec (cu + (e + n) - n + (2 * n - e)) n); [lia|].
    destruct (Z.leb_spec (2 * n) (cu + (e + n) - n + (2 * n - e))); [|lia].
    simpl. ring.
  - destruct (Z.ltb_spec (cu + (e - n) - n + (2 * n - e)) n); [|lia].
    simpl. ring.
  - destruct (Z.ltb_spec (cu + e - n + (2 * n - e)) n); [lia|].
    destruct (Z.leb_spec (2 * n) (cu + e - n + (2 * n - e))); [lia|].
    simpl. ring.
Qed.

(** X6. After a successful [initialize_voronoicell], [region_index] called
    with the three reference arguments it returned names the source's own
    box, [vl.ijk], with displacement 0 on every periodic axis (the box index
    of the source being in the grid there) and the caller's value kept on
    the others. *)
Theorem region_index_of_start_is_own_box :
  forall (D : Type) (HD : DoubleOps D) (C : Type) (HC : VoronoiCell D C)
         (cb : container_base D C) (c : C) (vl : v_loop) (r : initialized D C)
         (qx qy qz : D),
    initialize_voronoicell cb c vl = Some r ->
    in_ok r = true ->
    (xperiodic cb = true -> 0 <= vl_i vl < nx cb) ->
    (yperiodic cb = true -> 0 <= vl_j vl < ny cb) ->
    (zperiodic cb = true -> 0 <= vl_k vl < nz cb) ->
    region_index (in_con r) (in_sti r) (in_stj r) (in_stk r) qx qy qz
    = (vl_ijk vl,
       if xperiodic cb then d_zero else qx,
       if yperiodic cb then d_zero else qy,
       if zperiodic cb then d_zero else qz).
Proof.
  intros D HD C HC cb c vl r qx qy qz Hinit Hok Hx Hy Hz.
  destruct (initialize_voronoicell_Some_stored _ _ _ _ Hinit) as (x & y & z & Hst).
  rewrite (initialize_voronoicell_stored cb c vl x y z Hst) in Hinit.
  injection Hinit as <-. simpl in Hok. rewrite Hok. simpl.
  rewrite region_index_axes. simpl.
  unfold wrapped, displacement, start_index.
  destruct (xperiodic cb), (yperiodic cb), (zperiodic cb);
  try specialize (Hx eq_refl); try specialize (Hy eq_refl);
  try specialize (Hz eq_refl);
  repeat match goal with
         | |- context [?u <? ?v] => destruct (Z.ltb_spec u v); try lia
         | |- context [?u <=? ?v] => destruct (Z.leb_spec u v); try lia
         end;
  match goal with
  | |- (?idx, _, _, _) = _ => replace idx with (vl_ijk vl) by lia
  end; reflexivity.
Qed.

(** X6 on the periodic cube in binary64: the start indices (3,0,0) of the
    particle in box 1 lead back to box 1. *)
Lemma region_index_of_start_is_own_box_witness :
  let cb := periodic_cube (D:=float) in
  exists r, initialize_voronoicell cb (0, 0, 0, 0, 0, 0)%float at_particle = Some r /\
    in_ok r = true /\
    (in_sti r, in_stj r, in_stk r) = (3, 0, 0) /\
    region_index (in_con r) (in_sti r) (in_stj r) (in_stk r) 7%float 7%float 7%float
    = (1, 0%float, 7%float, 7%float).
Proof.
  intros cb.
  destruct (initialize_voronoicell cb (0, 0, 0, 0, 0, 0)%float at_particle)
    as [r|] eqn:Hinit; [|vm_compute in Hinit; discriminate].
  assert (Hok : in_ok r = true).
  { vm_compute in Hinit. injection Hinit as <-. reflexivity. }
  exists r. split; [reflexivity|]. split; [exact Hok|]. split.
  - vm_compute in Hinit. injection Hinit as <-. reflexivity.
  - apply (region_index_of_start_is_own_box float _ _ _ cb _ at_particle r
             7%float 7%float 7%float Hinit Hok).
    + intros _. vm_compute. split; [discriminate|reflexivity].
    + discriminate.
    + discriminate.
Defined.

(** X7. With the scratch fields naming a box of the grid, every call of
    [region_index] whose arguments are within reach (at most one period
    outside the grid on a periodic axis, a box index of the grid on a
    non-periodic one) returns the index of a box of the grid: it lies in
    [0, nx*ny*nz), so the particle arrays can be read at it. *)
Theorem region_index_within_grid :
  forall (D : Type) (HD : DoubleOps D) (C : Type)
         (cb : container_base D C) (i j k ei ej ek : Z) (qx qy qz : D),
    current_box cb i j k ->
    0 <= i < nx cb -> 0 <= j < ny cb -> 0 <= k < nz cb ->
    in_reach (xperiodic cb) i (nx cb) ei ->
    in_reach (yperiodic cb) j (ny cb) ej ->
    in_reach (zperiodic cb) k (nz cb) ek ->
    0 <= fst (fst (fst (region_index cb ei ej ek qx qy qz)))
    < nx cb * ny cb * nz cb.
Proof.
  intros D HD C cb i j k ei ej ek qx qy qz Hcur Hi Hj Hk Hx Hy Hz.
  rewrite (region_index_at_current_box cb i j k) by exact Hcur.
  pose proof (target_in_grid _ _ _ _ Hi Hx) as Tx.
  pose proof (target_in_grid _ _ _ _ Hj Hy) as Ty.
  pose proof (target_in_grid _ _ _ _ Hk Hz) as Tz.
  revert Tx Ty Tz.
  generalize (target (xperiodic cb) i (nx cb) ei) as X.
  generalize (target (yperiodic cb) j (ny cb) ej) as Y.
  generalize (target (zperiodic cb) k (nz cb) ek) as Z0.
  intros Z0 Y X Tx Ty Tz.
  assert (Hyz : 0 <= Y + ny cb * Z0 <= ny cb * nz cb - 1) by nia.
  assert (Hxyz : 0 <= nx cb * (Y + ny cb * Z0) <= nx cb * (ny cb * nz cb - 1))
    by (split; [apply Z.mul_nonneg_nonneg | apply Z.mul_le_mono_nonneg_l]; lia).
  lia.
Qed.

(** X7 on the periodic cube in binary64: from box 1 the argument 5 on the
    periodic axis leaves the grid and still names one of the boxes 0, 1,
    2. *)
Lemma region_index_within_grid_witness :
  let cb := set_cuijk (set_current (periodic_cube (D:=float))
                         0.5%float 0.5%float 0.5%float 1 0 0) (-2) in
  current_box cb 1 0 0 /\
  in_reach (xperiodic cb) 1 (nx cb) 5 /\
  0 <= fst (fst (fst (region_index cb 5 0 0 7%float 7%float 7%float)))
  < nx cb * ny cb * nz cb.
Proof.
  intros cb.
  assert (Hcur : current_box cb 1 0 0) by (repeat split).
  assert (Hx : in_reach (xperiodic cb) 1 (nx cb) 5) by (simpl; lia).
  split; [exact Hcur|]. split; [exact Hx|].
  apply (region_index_within_grid float _ _ cb 1 0 0 5 0 0 _ _ _ Hcur);
    simpl; lia.
Defined.

(** X8. The neighbour relation of [region_index] goes both ways.  Let the
    scratch fields of a container name a box [(i,j,k)] of the grid, and let
    [region_index] be called with arguments within reach.  With the scratch
    fields naming the box reached, the call with the arguments of the way
    back (the opposite offset on a periodic axis, the source's box index on
    a non-periodic one) returns the index of [(i,j,k)]; in exact arithmetic
    its displacement on each periodic axis is the opposite of the one of the
    way there. *)
Theorem region_index_way_back :
  (forall (D : Type) (HD : DoubleOps D) (C : Type)
          (cb cb' : container_base D C) (i j k ei ej ek : Z) (qx qy qz : D),
     current_box cb i j k ->
     0 <= i < nx cb -> 0 <= j < ny cb -> 0 <= k < nz cb ->
     in_reach (xperiodic cb) i (nx cb) ei ->
     in_reach (yperiodic cb) j (ny cb) ej ->
     in_reach (zperiodic cb) k (nz cb) ek ->
     same_geometry cb cb' ->
     current_box cb'
       (target (xperiodic cb) i (nx cb) ei)
       (target (yperiodic cb) j (ny cb) ej)
       (target (zperiodic cb) k (nz cb) ek) ->
     fst (fst (fst (region_index cb'
                      (way_back (xperiodic cb) i (nx cb) ei)
                      (way_back (yperiodic cb) j (ny cb) ej)
                      (way_back (zperiodic cb) k (nz cb) ek) qx qy qz)))
     = i + nx cb * (j + ny cb * k)) /\
  (forall (C : Type) (cb cb' : container_base Q C) (i j k ei ej ek : Z)
          (qx qy qz qx' qy' qz' : Q),
     current_box cb i j k ->
     0 <= i < nx cb -> 0 <= j < ny cb -> 0 <= k < nz cb ->
     in_reach (xperiodic cb) i (nx cb) ei ->
     in_reach (yperiodic cb) j (ny cb) ej ->
     in_reach (zperiodic cb) k (nz cb) ek ->
     same_geometry cb cb' ->
     current_box cb'
       (target (xperiodic cb) i (nx cb) ei)
       (target (yperiodic cb) j (ny cb) ej)
       (target (zperiodic cb) k (nz cb) ek) ->
     let there := region_index cb ei ej ek qx qy qz in
     let back := region_index cb'
                   (way_back (xperiodic cb) i (nx cb) ei)
                   (way_back (yperiodic cb) j (ny cb) ej)
                   (way_back (zperiodic cb) k (nz cb) ek) qx' qy' qz' in
     (xperiodic cb = true -> (snd (fst (fst back)) == - snd (fst (fst there)))%Q) /\
     (yperiodic cb = true -> (snd (fst back) == - snd (fst there))%Q) /\
     (zperiodic cb = true -> (snd back == - snd there)%Q)).
Proof.
  split.
  - intros D HD C cb cb' i j k ei ej ek qx qy qz Hcur Hi Hj Hk Hx Hy Hz Hgeo Hcur'.
    rewrite (region_index_at_current_box cb' _ _ _ _ _ _ _ _ _ Hcur').
    destruct Hgeo as (_ & _ & _ & _ & _ & _ & -> & -> & -> & -> & -> & -> & _).
    rewrite (proj1 (target_way_back _ _ _ _ Hi Hx)),
      (proj1 (target_way_back _ _ _ _ Hj Hy)),
      (proj1 (target_way_back _ _ _ _ Hk Hz)).
    reflexivity.
  - intros C cb cb' i j k ei ej ek qx qy qz qx' qy' qz'
      Hcur Hi Hj Hk Hx Hy Hz Hgeo Hcur' there back.
    unfold there, back. rewrite !region_index_axes. simpl.
    destruct Hcur as (-> & -> & -> & _). destruct Hcur' as (-> & -> & -> & _).
    destruct Hgeo as (-> & -> & -> & -> & -> & -> & -> & -> & -> & -> & -> & -> & _).
    split; [|split]; intros Hper; rewrite Hper in *;
      apply displacement_way_back; assumption.
Qed.

(** X8 on the periodic cube in exact arithmetic: from box 1 the argument 5
    reaches box 0 with displacement [+1]; from box 0 the argument of the
    way back, 1, reaches box 1 with displacement [-1]. *)
Lemma region_index_way_back_witness :
  let cb := set_cuijk (set_current (periodic_cube (D:=Q)) 0%Q 0%Q 0%Q 1 0 0) (-2) in
  let cb' := set_cuijk (set_current (periodic_cube (D:=Q)) 0%Q 0%Q 0%Q 0 0 0) (-3) in
  current_box cb 1 0 0 /\
  in_reach (xperiodic cb) 1 (nx cb) 5 /\
  same_geometry cb cb' /\
  current_box cb' (target (xperiodic cb) 1 (nx cb) 5) (target (yperiodic cb) 0 (ny cb) 0)
    (target (zperiodic cb) 0 (nz cb) 0) /\
  fst (fst (fst (region_index cb 5 0 0 0%Q 0%Q 0%Q))) = 0 /\
  fst (fst (fst (region_index cb' (way_back (xperiodic cb) 1 (nx cb) 5)
                   (way_back (yperiodic cb) 0 (ny cb) 0)
                   (way_back (zperiodic cb) 0 (nz cb) 0) 0%Q 0%Q 0%Q)))
  = 1 + nx cb * (0 + ny cb * 0).
Proof.
  intros cb cb'.
  assert (Hcur : current_box cb 1 0 0) by (repeat split).
  assert (Hx : in_reach (xperiodic cb) 1 (nx cb) 5) by (simpl; lia).
  assert (Hgeo : same_geometry cb cb') by (repeat split).
  assert (Hcur' : current_box cb' (target (xperiodic cb) 1 (nx cb) 5)
                    (target (yperiodic cb) 0 (ny cb) 0)
                    (target (zperiodic cb) 0 (nz cb) 0)) by (repeat split).
  split; [exact Hcur|]. split; [exact Hx|]. split; [exact Hgeo|].
  split; [exact Hcur'|]. split; [reflexivity|].
  apply (proj1 region_index_way_back Q _ _ cb cb' 1 0 0 5 0 0 0%Q 0%Q 0%Q Hcur);
    try (simpl; lia); assumption.
Defined.

(** ** The radical variant among neighbours *)

Lemma r_mul_increases (r1 r2 M : Q) :
  (0 <= r1)%Q -> (r1 <= r2)%Q -> (0 < M)%Q ->
  (2 * r1 / (M + r1) <= 2 * r2 / (M + r2))%Q.
Proof.
  intros H1 H12 HM.
  assert (Hdiff : (2 * r2 / (M + r2) - 2 * r1 / (M + r1)
                   == 2 * M * (r2 - r1) / ((M + r1) * (M + r2)))%Q)
    by (field; split; lra).
  assert (Hden : (0 < (M + r1) * (M + r2))%Q)
    by (apply Qmult_lt_0_compat; lra).
  assert (Hnum : (0 <= 2 * M * (r2 - r1))%Q)
    by (apply Qmult_le_0_compat; lra).
  assert (Hq : (0 <= 2 * M * (r2 - r1) / ((M + r1) * (M + r2)))%Q)
    by (apply Qle_shift_div_l; [exact Hden|lra]).
  lra.
Qed.

(** X9. In exact arithmetic a weighted container whose particles all have
    the radius [max_radius > 0] computes as the plain container does: after
    [r_init], [r_scale] gives back the squared distance it was given and
    [r_cutoff] the bound it was given, as [r_scale] and [r_cutoff] of
    [container]. *)
Theorem equal_radii_is_plain_container :
  forall (C : Type) (HC : VoronoiCell Q C) (con : container_poly.t Q C)
         (ijk s jjk q : Z) (r rs lrs : Q),
    radius_at (container_poly.base con) ijk s r ->
    radius_at (container_poly.base con) jjk q r ->
    (container_poly.max_radius con == r)%Q ->
    (0 < r)%Q ->
    exists con' v,
      container_poly.r_init con ijk s = Some con' /\
      container_poly.r_scale con' rs jjk q = Some v /\
      (v == container.r_scale (container_poly.base con) rs jjk q)%Q /\
      (container_poly.r_cutoff con' lrs
       == container.r_cutoff (container_poly.base con) lrs)%Q.
Proof.
  intros C HC con ijk s jjk q r rs lrs (row & Hrow & Hs) (row' & Hrow' & Hq) HM Hr.
  unfold container_poly.r_init. rewrite Hrow. simpl. rewrite Hs. simpl.
  eexists. eexists. split; [reflexivity|].
  unfold container_poly.r_scale, container_poly.r_cutoff,
    container.r_scale, container.r_cutoff. simpl.
  rewrite Hrow'. simpl. rewrite Hq. simpl.
  split; [reflexivity|]. split; [ring|].
  rewrite HM. field. lra.
Qed.

(** X9 on two spheres of radius 2 in exact arithmetic. *)
Lemma equal_radii_is_plain_container_witness :
  let con := two_spheres (D:=Q) 2%Q 2%Q in
  radius_at (container_poly.base con) 0 0 2%Q /\
  radius_at (container_poly.base con) 0 1 2%Q /\
  (container_poly.max_radius con == 2)%Q /\ (0 < 2)%Q /\
  exists con' v,
    container_poly.r_init con 0 0 = Some con' /\
    container_poly.r_scale con' 9%Q 0 1 = Some v /\
    (v == 9)%Q /\ (container_poly.r_cutoff con' 9%Q == 9)%Q.
Proof.
  intros con.
  assert (H0 : radius_at (container_poly.base con) 0 0 2%Q).
  { exists [0; 0; 0; 2; 1 + 1 + 1; 0; 0; 2]%Q. vm_compute. auto. }
  assert (H1 : radius_at (container_poly.base con) 0 1 2%Q).
  { exists [0; 0; 0; 2; 1 + 1 + 1; 0; 0; 2]%Q. vm_compute. auto. }
  assert (HM : (container_poly.max_radius con == 2)%Q) by reflexivity.
  assert (Hr : (0 < 2)%Q) by reflexivity.
  split; [exact H0|]. split; [exact H1|]. split; [exact HM|]. split; [exact Hr|].
  exact (equal_radii_is_plain_container _ _ con 0 0 0 1 2%Q 9%Q 9%Q H0 H1 HM Hr).
Defined.

(** X10. Two neighbours agree on the plane between them.  For particles
    [s] and [t] at squared distance [lrs], the value [r_scale] gives for [t]
    after [r_init] for [s] and the value it gives for [s] after [r_init]
    for [t] add up, in exact arithmetic, to [2*lrs]: the two cuts, each at
    half its value along the line between the particles, lie at the same
    place.  The second [r_init] is made on the container the first one
    left, whose [r_rad] and [r_mul] it overwrites. *)
Theorem radical_plane_is_shared :
  forall (C : Type) (HC : VoronoiCell Q C) (con : container_poly.t Q C)
         (ijk s jjk t : Z) (r_s r_t lrs : Q),
    radius_at (container_poly.base con) ijk s r_s ->
    radius_at (container_poly.base con) jjk t r_t ->
    exists con1 con2 a b,
      container_poly.r_init con ijk s = Some con1 /\
      container_poly.r_scale con1 lrs jjk t = Some a /\
      container_poly.r_init con1 jjk t = Some con2 /\
      container_poly.r_scale con2 lrs ijk s = Some b /\
      (a + b == 2 * lrs)%Q.
Proof.
  intros C HC con ijk s jjk t r_s r_t lrs (row & Hrow & Hs) (row' & Hrow' & Ht).
  unfold container_poly.r_init at 1. rewrite Hrow. simpl. rewrite Hs. simpl.
  do 4 eexists. split; [reflexivity|].
  unfold container_poly.r_scale at 1. simpl. rewrite Hrow'. simpl. rewrite Ht. simpl.
  split; [reflexivity|].
  unfold container_poly.r_init. simpl. rewrite Hrow'. simpl. rewrite Ht. simpl.
  split; [reflexivity|].
  unfold container_poly.r_scale. simpl. rewrite Hrow. simpl. rewrite Hs. simpl.
  split; [reflexivity|]. ring.
Qed.

(** X10 on the spheres of radius 1 and 2 at distance 3, in exact
    arithmetic: the cut values 6 and 12 add up to 18. *)
Lemma radical_plane_is_shared_witness :
  let con := two_spheres (D:=Q) 2%Q 1%Q in
  radius_at (container_poly.base con) 0 0 1%Q /\
  radius_at (container_poly.base con) 0 1 2%Q /\
  exists con1 con2 a b,
    container_poly.r_init con 0 0 = Some con1 /\
    container_poly.r_scale con1 9%Q 0 1 = Some a /\
    container_poly.r_init con1 0 1 = Some con2 /\
    container_poly.r_scale con2 9%Q 0 0 = Some b /\
    (a + b == 2 * 9)%Q.
Proof.
  intros con.
  assert (H0 : radius_at (container_poly.base con) 0 0 1%Q).
  { exists [0; 0; 0; 1; 1 + 1 + 1; 0; 0; 2]%Q. vm_compute. auto. }
  assert (H1 : radius_at (container_poly.base con) 0 1 2%Q).
  { exists [0; 0; 0; 1; 1 + 1 + 1; 0; 0; 2]%Q. vm_compute. auto. }
  split; [exact H0|]. split; [exact H1|].
  exact (radical_plane_is_shared _ _ con 0 0 0 1 1%Q 2%Q 9%Q H0 H1).
Defined.

(** X11. In exact arithmetic, with radii between 0 and [max_radius > 0],
    the search bound of [container_poly] keeps the order of the distances
    ([r_cutoff] is monotone), and a source of larger radius gets a larger
    multiplier, hence a larger bound for the same distance. *)
Theorem r_cutoff_is_monotone :
  forall (C : Type) (HC : VoronoiCell Q C) (con : container_poly.t Q C)
         (ijk s jjk t : Z) (r1 r2 : Q),
    radius_at (container_poly.base con) ijk s r1 ->
    radius_at (container_poly.base con) jjk t r2 ->
    (0 <= r1)%Q -> (r1 <= r2)%Q -> (r2 <= container_poly.max_radius con)%Q ->
    (0 < container_poly.max_radius con)%Q ->
    exists con1 con2,
      container_poly.r_init con ijk s = Some con1 /\
      container_poly.r_init con jjk t = Some con2 /\
      (container_poly.r_mul con1 <= container_poly.r_mul con2)%Q /\
      (forall lrs lrs' : Q,
         (0 <= lrs)%Q -> (lrs <= lrs')%Q ->
         (container_poly.r_cutoff con1 lrs <= container_poly.r_cutoff con1 lrs')%Q /\
         (container_poly.r_cutoff con1 lrs <= container_poly.r_cutoff con2 lrs)%Q).
Proof.
  intros C HC con ijk s jjk t r1 r2 (row & Hrow & Hs) (row' & Hrow' & Ht)
    H1 H12 H2M HM.
  unfold container_poly.r_init, container_poly.r_cutoff.
  rewrite Hrow. simpl. rewrite Hs. simpl. rewrite Hrow'. simpl. rewrite Ht. simpl.
  do 2 eexists. split; [reflexivity|]. split; [reflexivity|]. simpl.
  set (M := container_poly.max_radius con) in *.
  assert (H2 : (0 <= r2)%Q) by lra.
  assert (H1M : (r1 <= M)%Q) by lra.
  pose proof (r_mul_closed_form r1 M H1 HM) as Hc1.
  pose proof (r_mul_closed_form r2 M H2 HM) as Hc2.
  pose proof (r_mul_increases r1 r2 M H1 H12 HM) as Hinc.
  destruct (r_mul_range r1 M H1 H1M HM) as [Hlo _].
  rewrite <- Hc1 in Hinc, Hlo. rewrite <- Hc2 in Hinc.
  revert Hinc Hlo.
  generalize (1 + (r1 * r1 - M * M) / ((M + r1) * (M + r1)))%Q as m1.
  generalize (1 + (r2 * r2 - M * M) / ((M + r2) * (M + r2)))%Q as m2.
  intros m2 m1 Hinc Hlo. split; [exact Hinc|].
  intros lrs lrs' Hl Hll. split.
  - assert (Hp : (0 <= m1 * (lrs' - lrs))%Q) by (apply Qmult_le_0_compat; lra).
    lra.
  - assert (Hp : (0 <= (m2 - m1) * lrs)%Q) by (apply Qmult_le_0_compat; lra).
    lra.
Qed.

(** X11 on the spheres of radius 1 and 2 in exact arithmetic. *)
Lemma r_cutoff_is_monotone_witness :
  let con := two_spheres (D:=Q) 2%Q 1%Q in
  radius_at (container_poly.base con) 0 0 1%Q /\
  radius_at (container_poly.base con) 0 1 2%Q /\
  (0 <= 1)%Q /\ (1 <= 2)%Q /\ (2 <= container_poly.max_radius con)%Q /\
  (0 < container_poly.max_radius con)%Q /\
  exists con1 con2,
    container_poly.r_init con 0 0 = Some con1 /\
    container_poly.r_init con 0 1 = Some con2 /\
    (container_poly.r_mul con1 <= container_poly.r_mul con2)%Q.
Proof.
  intros con.
  assert (H0 : radius_at (container_poly.base con) 0 0 1%Q).
  { exists [0; 0; 0; 1; 1 + 1 + 1; 0; 0; 2]%Q. vm_compute. auto. }
  assert (H1 : radius_at (container_poly.base con) 0 1 2%Q).
  { exists [0; 0; 0; 1; 1 + 1 + 1; 0; 0; 2]%Q. vm_compute. auto. }
  assert (Ha : (0 <= 1)%Q) by (vm_compute; discriminate).
  assert (Hb : (1 <= 2)%Q) by (vm_compute; discriminate).
  assert (Hc : (2 <= container_poly.max_radius con)%Q) by (vm_compute; discriminate).
  assert (Hd : (0 < container_poly.max_radius con)%Q) by (vm_compute; reflexivity).
  split; [exact H0|]. split; [exact H1|]. split; [exact Ha|]. split; [exact Hb|].
  split; [exact Hc|]. split; [exact Hd|].
  destruct (r_cutoff_is_monotone _ _ con 0 0 0 1 1%Q 2%Q H0 H1 Ha Hb Hc Hd)
    as (con1 & con2 & Hi1 & Hi2 & Hle & _).
  exists con1, con2. auto.
Defined.


(** ** The position within the box *)

(** X12. In exact arithmetic, after [initialize_voronoicell] for a particle
    that lies in the box the loop names, [frac_pos] gives the position of
    the particle measured from the lower corner of that box: each component
    is at least 0 and less than the side of the box, and added to the
    corner it gives the particle's coordinate back. *)
Theorem frac_pos_within_box :
  forall (C : Type) (HC : VoronoiCell Q C) (cb : container_base Q C) (c : C)
         (vl : v_loop) (x y z : Q),
    stored_at cb (vl_ijk vl) (vl_q vl) x y z ->
    in_box_of (ax cb) (boxx cb) (vl_i vl) x ->
    in_box_of (ay cb) (boxy cb) (vl_j vl) y ->
    in_box_of (az cb) (boxz cb) (vl_k vl) z ->
    exists r, initialize_voronoicell cb c vl = Some r /\
      let f := frac_pos (in_con r) in
      (0 <= fst (fst f) /\ fst (fst f) < boxx cb)%Q /\
      (0 <= snd (fst f) /\ snd (fst f) < boxy cb)%Q /\
      (0 <= snd f /\ snd f < boxz cb)%Q /\
      (ax cb + boxx cb * inject_Z (vl_i vl) + fst (fst f) == x)%Q /\
      (ay cb + boxy cb * inject_Z (vl_j vl) + snd (fst f) == y)%Q /\
      (az cb + boxz cb * inject_Z (vl_k vl) + snd f == z)%Q.
Proof.
  intros C HC cb c vl x y z Hst [Hx1 Hx2] [Hy1 Hy2] [Hz1 Hz2].
  eexists. split; [apply initialize_voronoicell_stored; exact Hst|].
  unfold frac_pos.
  destruct (snd (apply_walls (walls cb) (initial_cell cb c x y z) x y z));
    cbn [in_con fst snd cux cuy cuz cui cuj cuk ax ay az boxx boxy boxz
         set_cuijk set_current d_sub d_mul d_of_int exactQ];
    (repeat split; try lra; ring).
Qed.

(** X12 on [one_particle] in exact arithmetic: the particle at
    (1/2,1/2,1/2) is in box (1,0,0), whose sides are 1/3, 1 and 1. *)
Lemma frac_pos_within_box_witness :
  let cb := one_particle (D:=Q) in
  stored_at cb 1 0 (1 # 2)%Q (1 # 2)%Q (1 # 2)%Q /\
  in_box_of (ax cb) (boxx cb) 1 (1 # 2)%Q /\
  in_box_of (ay cb) (boxy cb) 0 (1 # 2)%Q /\
  in_box_of (az cb) (boxz cb) 0 (1 # 2)%Q /\
  exists r, initialize_voronoicell cb (0, 0, 0, 0, 0, 0)%Q at_particle = Some r /\
    (0 <= fst (fst (frac_pos (in_con r))) /\
     fst (fst (frac_pos (in_con r))) < boxx cb)%Q.
Proof.
  intros cb.
  assert (Hst : stored_at cb 1 0 (1 # 2)%Q (1 # 2)%Q (1 # 2)%Q).
  { exists [1 # 2; 1 # 2; 1 # 2; 0; 0; 0]%Q. vm_compute. auto. }
  assert (Hx : in_box_of (ax cb) (boxx cb) 1 (1 # 2)%Q)
    by (split; vm_compute; [discriminate|reflexivity]).
  assert (Hy : in_box_of (ay cb) (boxy cb) 0 (1 # 2)%Q)
    by (split; vm_compute; [discriminate|reflexivity]).
  assert (Hz : in_box_of (az cb) (boxz cb) 0 (1 # 2)%Q)
    by (split; vm_compute; [discriminate|reflexivity]).
  split; [exact Hst|]. split; [exact Hx|]. split; [exact Hy|]. split; [exact Hz|].
  destruct (frac_pos_within_box _ _ cb (0, 0, 0, 0, 0, 0)%Q at_particle _ _ _
              Hst Hx Hy Hz) as (r & Hr & Hfx & _).
  exists r. auto.
Defined.

(** ** The box a cell starts from *)

(** X13. In exact arithmetic, the box that [initialize_voronoicell] passes
    to [c.init] is the whole container seen from the particle: on every
    axis its width is the length [b-a] of the container, and for a particle
    inside the container (on a periodic axis any particle, the container
    being of non-negative length) it contains the particle itself, which is
    the origin of the cell's frame.  The bounds are read off a cell class
    that keeps them, in a container without walls. *)
Theorem initial_box_spans_container :
  forall (cb : container_base Q (box_cell Q)) (c : box_cell Q) (vl : v_loop)
         (x y z : Q),
    stored_at cb (vl_ijk vl) (vl_q vl) x y z ->
    walls cb = [] ->
    (if xperiodic cb then ax cb <= bx cb else ax cb <= x /\ x <= bx cb)%Q ->
    (if yperiodic cb then ay cb <= by_ cb else ay cb <= y /\ y <= by_ cb)%Q ->
    (if zperiodic cb then az cb <= bz cb else az cb <= z /\ z <= bz cb)%Q ->
    exists r x1 x2 y1 y2 z1 z2,
      initialize_voronoicell cb c vl = Some r /\
      in_cell r = (x1, x2, y1, y2, z1, z2) /\
      (x1 <= 0 /\ 0 <= x2 /\ x2 - x1 == bx cb - ax cb)%Q /\
      (y1 <= 0 /\ 0 <= y2 /\ y2 - y1 == by_ cb - ay cb)%Q /\
      (z1 <= 0 /\ 0 <= z2 /\ z2 - z1 == bz cb - az cb)%Q.
Proof.
  intros cb c vl x y z Hst Hws Hx Hy Hz.
  rewrite (initialize_voronoicell_stored cb c vl x y z Hst). rewrite Hws.
  unfold initial_cell, lower_bound, upper_bound.
  cbn [apply_walls fst snd init box_cell_init in_cell d_sub d_mul d_opp d_half exactQ].
  do 7 eexists. split; [reflexivity|]. split; [reflexivity|].
  destruct (xperiodic cb), (yperiodic cb), (zperiodic cb);
    repeat split; try lra; ring.
Qed.

(** X13 on the periodic cube in exact arithmetic: the particle at
    (1/2,1/2,1/2) starts from the box [-1/2,1/2] on each axis. *)
Lemma initial_box_spans_container_witness :
  let cb := periodic_cube (D:=Q) in
  stored_at cb 1 0 (1 # 2)%Q (1 # 2)%Q (1 # 2)%Q /\
  walls cb = [] /\
  exists r x1 x2 y1 y2 z1 z2,
    initialize_voronoicell cb (0, 0, 0, 0, 0, 0)%Q at_particle = Some r /\
    in_cell r = (x1, x2, y1, y2, z1, z2) /\
    (x1 <= 0 /\ 0 <= x2 /\ x2 - x1 == bx cb - ax cb)%Q.
Proof.
  intros cb.
  assert (Hst : stored_at cb 1 0 (1 # 2)%Q (1 # 2)%Q (1 # 2)%Q).
  { exists [1 # 2; 1 # 2; 1 # 2; 0; 0; 0]%Q. vm_compute. auto. }
  assert (Hws : walls cb = []) by reflexivity.
  assert (Hx : (ax cb <= bx cb)%Q) by (vm_compute; discriminate).
  assert (Hy : (ay cb <= 1 # 2 /\ 1 # 2 <= by_ cb)%Q)
    by (split; vm_compute; discriminate).
  assert (Hz : (az cb <= 1 # 2 /\ 1 # 2 <= bz cb)%Q)
    by (split; vm_compute; discriminate).
  split; [exact Hst|]. split; [exact Hws|].
  destruct (initial_box_spans_container cb (0, 0, 0, 0, 0, 0)%Q at_particle _ _ _
              Hst Hws Hx Hy Hz)
    as (r & x1 & x2 & y1 & y2 & z1 & z2 & Hr & Hc & Hbx & _).
  exists r, x1, x2, y1, y2, z1, z2. auto.
Defined.
